(** * Simple Chat (webapp.py): the Flask chat endpoint and the browser client

    A shallow embedding of [src/webapp.py].  The file has two halves, as the
    program has: [Module Server] embeds the Python handler [chat], and
    [Module Client] embeds the JavaScript of the page ([loadHistory],
    [saveHistory], [renderMessages], [escapeHtml], [linkify],
    [sendMessage]). *)

From Stdlib Require Import ZArith NArith String Ascii SpecFloat.
From stdpp Require Import gmap list fin_maps.

#[local] Set Warnings "-register-all".
#[local] Open Scope N_scope.

(** ** Text

    A Python [str] is a sequence of code points and a JavaScript string a
    sequence of UTF-16 code units; both are lists of numbers here.  (A code
    unit is below 65536; no definition or fact below needs the bound.)  [lit]
    writes an ASCII literal of the source. *)

Definition lit (s : string) : list N :=
  map N_of_ascii (list_ascii_of_string s).

(** ** Results of code that may raise *)

Inductive result (E A : Type) : Type :=
| Ok (a : A)
| Raise (e : E).
Arguments Ok {E A} a.
Arguments Raise {E A} e.

Declare Scope result_scope.
Delimit Scope result_scope with result.
Notation "'let!' x ':=' c 'in' k" :=
  (match c with Ok x => k | Raise e => Raise e end)
  (at level 10, x name, c at level 100, k at level 200) : result_scope.

(** * The server: [chat] *)

Module Server.

#[local] Open Scope result_scope.

Abbreviation pystr := (list N) (only parsing).

(** Values that [request.get_json] hands to the handler. *)
Inductive pyval : Type :=
| PNone
| PBool (b : bool)
| PInt (z : Z)
| PFloat (f : spec_float)
| PStr (s : pystr)
| PList (l : list pyval)
| PDict (d : gmap pystr pyval).

(** An exception object: its class and the text [str(e)] gives. *)
Record pyexn := Exception { exn_class : pystr; exn_text : pystr }.

Definition str (e : pyexn) : pystr := exn_text e.

Definition type_name (v : pyval) : pystr :=
  match v with
  | PNone => lit "NoneType"
  | PBool _ => lit "bool"
  | PInt _ => lit "int"
  | PFloat _ => lit "float"
  | PStr _ => lit "str"
  | PList _ => lit "list"
  | PDict _ => lit "dict"
  end.

Definition AttributeError (v : pyval) (attr : string) : pyexn :=
  Exception (lit "AttributeError")
    (lit "'" ++ type_name v ++ lit "' object has no attribute '" ++ lit attr ++ lit "'").

Definition IndexError : pyexn :=
  Exception (lit "IndexError") (lit "list index out of range").

(** [obj.get(key, default)]: only a dict has the method. *)
Definition py_get (obj : pyval) (key : pystr) (dflt : pyval) : result pyexn pyval :=
  match obj with
  | PDict d => Ok (default dflt (d !! key))
  | _ => Raise (AttributeError obj "get")
  end.

Definition isinstance_list (v : pyval) : bool :=
  match v with PList _ => true | _ => false end.

Definition isinstance_str (v : pyval) : bool :=
  match v with PStr _ => true | _ => false end.

Definition isinstance_dict (v : pyval) : bool :=
  match v with PDict _ => true | _ => false end.

(** [role in ('user','assistant')]: membership by [==], and only a [str]
    equals a [str]. *)
Definition role_in_user_assistant (role : pyval) : bool :=
  match role with
  | PStr s => bool_decide (s = lit "user") || bool_decide (s = lit "assistant")
  | _ => false
  end.

(** [{'role': role, 'content': content}] *)
Definition message (role content : pyval) : pyval :=
  PDict (<[lit "role" := role]> (<[lit "content" := content]> ∅)).

Definition system_prompt : pystr :=
  lit "You are a friendly, concise, cute assistant that replies helpfully and briefly. "
  ++ lit "Keep responses pleasant and slightly playful, suitable for a pastel-themed chat UI.".

Definition system_message : pyval := message (PStr (lit "system")) (PStr system_prompt).

(** The loop [for m in messages: ...] of lines 220-225, the list
    [openai_messages] being threaded through the iterations. *)
Fixpoint for_m_in (messages : list pyval) (openai_messages : list pyval)
  : result pyexn (list pyval) :=
  match messages with
  | [] => Ok openai_messages
  | m :: rest =>
      let! role := py_get m (lit "role") PNone in
      let! content := py_get m (lit "content") PNone in
      if negb (role_in_user_assistant role) || negb (isinstance_str content)
      then for_m_in rest openai_messages                              (* continue *)
      else for_m_in rest (openai_messages ++ [message role content])  (* append *)
  end.

(** ** The upstream completion API *)

(** What [client.chat.completions.create] is called with. *)
Record request := Request {
  req_model : pystr;
  req_messages : list pyval;
  req_max_tokens : Z;
  req_temperature : spec_float
}.

(** What it gives back: the choices, each with the [content] of its message
    ([None] when the message carries no text). *)
Record completion := Completion { choices : list (option pystr) }.

Inductive upstream : Type :=
| Returns (resp : completion)
| Raises (e : pyexn).

(** [str.strip()]: the characters Python counts as white space. *)
Definition py_isspace (c : N) : bool :=
  ((9 <=? c) && (c <=? 13)) || ((28 <=? c) && (c <=? 32))
  || (c =? 133) || (c =? 160) || (c =? 5760)
  || ((8192 <=? c) && (c <=? 8202))
  || (c =? 8232) || (c =? 8233) || (c =? 8239) || (c =? 8287) || (c =? 12288).

Fixpoint lstrip (s : pystr) : pystr :=
  match s with
  | c :: s' => if py_isspace c then lstrip s' else s
  | [] => []
  end.

Definition strip (s : pystr) : pystr := rev (lstrip (rev (lstrip s))).

(** [resp.choices[0].message.content.strip()] *)
Definition reply_of (resp : completion) : result pyexn pystr :=
  match choices resp with
  | [] => Raise IndexError
  | None :: _ => Raise (AttributeError PNone "strip")
  | Some content :: _ => Ok (strip content)
  end.

(** ** The handler *)

Inductive outcome : Type :=
| Response (status : Z) (body : pyval)   (* [return jsonify(body), status] *)
| Uncaught (e : pyexn).                  (* the exception leaves [chat] *)

Definition jsonify1 (key : string) (v : pyval) : pyval := PDict {[ lit key := v ]}.

(** 0.7 as the double it is. *)
Definition temperature_0_7 : spec_float := S754_finite false 6305039478318694 (-53).

Section Chat.

(** The process-wide configuration and the completion API. *)
Variable MODEL : pystr.
Variable create : request → upstream.

(** The body of [try:] (lines 228-238). *)
Definition try_body (openai_messages : list pyval) : result pyexn outcome :=
  match create (Request MODEL openai_messages 512 temperature_0_7) with
  | Raises e => Raise e
  | Returns resp =>
      let! reply := reply_of resp in
      Ok (Response 200 (jsonify1 "reply" (PStr reply)))
  end.

(** [chat], from line 208 on: [data] is what [request.get_json] returned
    (a body that is not JSON never reaches that line).  The second component
    lists the calls made to the completion API, oldest first.  An exception
    raised outside [try] leaves the handler. *)
Definition chat (data : pyval) : outcome * list request :=
  match py_get data (lit "messages") (PList []) with
  | Raise e => (Uncaught e, [])
  | Ok messages =>
      match messages with
      | PList ms =>
          match for_m_in ms [system_message] with
          | Raise e => (Uncaught e, [])
          | Ok openai_messages =>
              (match try_body openai_messages with
               | Ok r => r
               | Raise e => Response 500 (jsonify1 "error" (PStr (str e)))
               end,
               [Request MODEL openai_messages 512 temperature_0_7])
          end
      | _ => (Response 400 (jsonify1 "error" (PStr (lit "invalid messages"))), [])
      end
  end.

End Chat.

(** ** The handler and the completion service

    [chat] above takes the completion API as a function.  The API is a
    service outside the program, with a state of its own, and what the
    handler calls is the client of the [openai] library.  Here the call
    changes a world, and the handler passes the world on as the code passes
    control on: each use of [create] in the handler is one step of the
    world. *)

Section Handler.

Variable MODEL : pystr.
Variable world : Type.
Variable create : request → world → upstream * world.

(** The body of [try:] (lines 228-238). *)
Definition try_body_io (openai_messages : list pyval) (w : world)
  : result pyexn outcome * world :=
  match create (Request MODEL openai_messages 512 temperature_0_7) w with
  | (Raises e, w') => (Raise e, w')
  | (Returns resp, w') =>
      (let! reply := reply_of resp in
       Ok (Response 200 (jsonify1 "reply" (PStr reply))), w')
  end.

(** [chat], from line 208 on, with the world it leaves. *)
Definition chat_io (data : pyval) (w : world) : outcome * world :=
  match py_get data (lit "messages") (PList []) with
  | Raise e => (Uncaught e, w)
  | Ok messages =>
      match messages with
      | PList ms =>
          match for_m_in ms [system_message] with
          | Raise e => (Uncaught e, w)
          | Ok openai_messages =>
              match try_body_io openai_messages w with
              | (Ok r, w') => (r, w')
              | (Raise e, w') => (Response 500 (jsonify1 "error" (PStr (str e))), w')
              end
          end
      | _ => (Response 400 (jsonify1 "error" (PStr (lit "invalid messages"))), w)
      end
  end.

End Handler.

(** What one exchange with the service gives the client: a completion, or
    a failure.  [e] is the exception the client raises for the failure, and
    [retryable] tells whether the client, as the library ships it, sends the
    request again after it: it does after a connection error, a timeout and
    the statuses 408, 409, 429 and 500 and above, and does not after the
    others (a refused credential, 401, is one). *)
Inductive exchange : Type :=
| Answered (resp : completion)
| Failed (retryable : bool) (e : pyexn).

(** The number of times the client sends a request again when it is built
    without [max_retries], as in line 229 ([openai.OpenAI(api_key=...)]):
    the library's [DEFAULT_MAX_RETRIES]. *)
Definition DEFAULT_MAX_RETRIES : nat := 2.

Section Service.

(** The service: its state, and its answer to one request. *)
Variable service : Type.
Variable send : request → service → exchange * service.

(** The world of the handler: the state of the service and the requests the
    service has received, oldest first. *)
Record wire := Wire { state : service; received : list request }.

(** One request on the wire. *)
Definition transmit (req : request) (w : wire) : exchange * wire :=
  let '(x, s) := send req (state w) in (x, Wire s (received w ++ [req])).

(** The request loop of the client: the request is sent; after a failure
    that is retryable it is sent again while retries remain (the pause
    between two sendings is not modelled); the exception raised is that of
    the last failure. *)
Fixpoint client_request (remaining_retries : nat) (req : request) (w : wire)
  : upstream * wire :=
  match transmit req w with
  | (Answered resp, w') => (Returns resp, w')
  | (Failed retryable e, w') =>
      match remaining_retries with
      | S n => if retryable then client_request n req w' else (Raises e, w')
      | O => (Raises e, w')
      end
  end.

(** [client.chat.completions.create] of the client of line 229. *)
Definition create_io (req : request) (w : wire) : upstream * wire :=
  client_request DEFAULT_MAX_RETRIES req w.

End Service.

Arguments Wire {service} _ _.
Arguments state {service} _.
Arguments received {service} _.

(** The handler as it runs: [chat] calling the client of line 229. *)
Definition chat_wire {service : Type} (MODEL : pystr)
    (send : request → service → exchange * service) (data : pyval) (w : wire service)
  : outcome * wire service :=
  chat_io MODEL (wire service) (create_io service send) data w.

(** ** The sequence the specification describes *)

(** The entries the specification keeps: objects whose [role] is the text
    [user] or [assistant] and whose [content] is a text. *)
Definition is_chat_entry (m : pyval) : bool :=
  match m with
  | PDict d =>
      match d !! lit "role", d !! lit "content" with
      | Some (PStr r), Some (PStr _) =>
          bool_decide (r = lit "user" ∨ r = lit "assistant")
      | _, _ => false
      end
  | _ => false
  end.

(** What is passed on of a kept entry: its role and its content. *)
Definition forwarded (m : pyval) : pyval :=
  match m with
  | PDict d => message (default PNone (d !! lit "role")) (default PNone (d !! lit "content"))
  | _ => m
  end.

(** The sequence the specification describes, entries being passed on as
    [forwarded] gives them. *)
Definition spec_upstream_messages (messages : list pyval) : list pyval :=
  system_message :: map forwarded (List.filter is_chat_entry messages).

Definition upstream_request (MODEL : pystr) (openai_messages : list pyval) : request :=
  Request MODEL openai_messages 512 temperature_0_7.

(** A Message as the loop appends it: the two fields, a role that is
    [user] or [assistant], a content that is a string. *)
Definition is_forwarded_message (v : pyval) : Prop :=
  ∃ r c, v = message (PStr r) (PStr c) ∧ (r = lit "user" ∨ r = lit "assistant").

(** ** The configuration read at start (lines 29-34) *)

Record config := Config { cfg_OPENAI_API_KEY : pystr; cfg_MODEL : pystr }.

Definition RuntimeError : pyexn :=
  Exception (lit "RuntimeError")
    (lit "Please set the OPENAI_API_KEY environment variable before running this app.").

(** [os.environ.get] twice; [not OPENAI_API_KEY] holds of [None] and of the
    empty string. *)
Definition configure (environ : gmap pystr pystr) : result pyexn config :=
  match environ !! lit "OPENAI_API_KEY" with
  | None => Raise RuntimeError
  | Some [] => Raise RuntimeError
  | Some key => Ok (Config key (default (lit "gpt-4o-mini") (environ !! lit "MODEL")))
  end.

(** ** Some requests and upstreams *)

Definition gpt : pystr := lit "gpt-4o-mini".

(** An upstream that always answers. *)
Definition answering (req : request) : upstream :=
  Returns (Completion [Some (lit " Hello! ")]).

(** An upstream that refuses the credential. *)
Definition auth_failure : pyexn :=
  Exception (lit "AuthenticationError") (lit "Incorrect API key provided").

Definition refusing (req : request) : upstream := Raises auth_failure.

(** A service that refuses the credential: the failure is not retryable. *)
Definition unauthorized (req : request) (s : unit) : exchange * unit :=
  (Failed false auth_failure, s).

Definition rate_limit : pyexn :=
  Exception (lit "RateLimitError") (lit "Rate limit reached").

(** A service that is over its rate limit, whenever it is asked. *)
Definition rate_limited (req : request) (s : unit) : exchange * unit :=
  (Failed true rate_limit, s).

(** A service that is over its rate limit once, and answers after that;
    its state tells whether it has refused already. *)
Definition rate_limited_once (req : request) (refused : bool) : exchange * bool :=
  if refused then (Answered (Completion [Some (lit " Hello! ")]), true)
  else (Failed true rate_limit, true).

Definition hi : pyval := message (PStr (lit "user")) (PStr (lit "hi")).

Definition admin_x : pyval := message (PStr (lit "admin")) (PStr (lit "x")).

(** An entry with a field besides [role] and [content]. *)
Definition hi_named : pyval :=
  PDict (<[lit "name" := PStr (lit "bob")]>
           (<[lit "role" := PStr (lit "user")]> (<[lit "content" := PStr (lit "hi")]> ∅))).

Definition body_of (messages : pyval) : gmap pystr pyval := {[ lit "messages" := messages ]}.

(** An environment with the key and without MODEL. *)
Definition environ_key_only : gmap pystr pystr := {[ lit "OPENAI_API_KEY" := lit "sk-test" ]}.

Definition extra_field (r : list request) : option pyval :=
  match r with
  | [Request _ (_ :: PDict d :: _) _ _] => d !! lit "name"
  | _ => None
  end.

End Server.

(** * The client: the script of the page *)

Module Client.

#[local] Open Scope result_scope.

(** A string is its UTF-16 code units. *)
Abbreviation jsstring := (list N) (only parsing).

(** The values the script handles: what [JSON.parse] builds, and
    [undefined].  An object lists its own properties in creation order. *)
Inductive jsval : Type :=
| JUndefined
| JNull
| JBool (b : bool)
| JNum (n : spec_float)
| JStr (s : jsstring)
| JArr (elems : list jsval)
| JObj (props : list (jsstring * jsval)).

(** Thrown values: all are error objects with a [message]. *)
Inductive jserror : Type :=
| TypeError (message : jsstring)
| SyntaxError (message : jsstring)
| Error (message : jsstring).

Definition err_message (e : jserror) : jsstring :=
  match e with TypeError m | SyntaxError m | Error m => m end.

(** ** Characters *)

(** WhiteSpace and LineTerminator of ECMAScript: what [trim] strips and
    [\s] matches. *)
Definition is_js_whitespace (c : N) : bool :=
  ((9 <=? c) && (c <=? 13)) || (c =? 32) || (c =? 160) || (c =? 5760)
  || ((8192 <=? c) && (c <=? 8202))
  || (c =? 8232) || (c =? 8233) || (c =? 8239) || (c =? 8287)
  || (c =? 12288) || (c =? 65279).

Fixpoint trimStart (s : jsstring) : jsstring :=
  match s with
  | c :: s' => if is_js_whitespace c then trimStart s' else s
  | [] => []
  end.

Definition trim (s : jsstring) : jsstring := rev (trimStart (rev (trimStart s))).

(** ** [String.prototype.replace] with a global regular expression

    A regular expression is given by its matcher at a position: the matched
    text and what follows it.  [replace_g] scans from the left; where the
    expression matches, the replacement of the match is emitted and the scan
    goes on after the match; elsewhere the character is copied.  None of the
    three expressions of the page matches the empty string.  The scan makes
    at most one step per character, so [length s] steps are enough. *)

Definition regexp := jsstring → option (jsstring * jsstring).

Fixpoint replace_from (steps : nat) (re : regexp) (by_ : jsstring → jsstring)
    (s : jsstring) : jsstring :=
  match steps, s with
  | _, [] => []
  | O, _ => s
  | S steps', c :: s' =>
      match re s with
      | Some (m, rest) => by_ m ++ replace_from steps' re by_ rest
      | None => c :: replace_from steps' re by_ s'
      end
  end.

Definition replace_g (re : regexp) (by_ : jsstring → jsstring) (s : jsstring) : jsstring :=
  replace_from (length s) re by_ s.

(** The character class of [escapeHtml]: ampersand, angle brackets and the
    two quotes. *)
Definition re_html_special : regexp := fun s =>
  match s with
  | c :: rest =>
      if (c =? 38) || (c =? 60) || (c =? 62) || (c =? 34) || (c =? 39)
      then Some ([c], rest) else None
  | [] => None
  end.

(** [/\n/] *)
Definition re_newline : regexp := fun s =>
  match s with
  | c :: rest => if c =? 10 then Some ([c], rest) else None
  | [] => None
  end.

Fixpoint strip_prefix (p s : jsstring) : option jsstring :=
  match p, s with
  | [], _ => Some s
  | a :: p', b :: s' => if a =? b then strip_prefix p' s' else None
  | _ :: _, [] => None
  end.

(** The longest run of characters that are not white space, and the rest. *)
Fixpoint span_not_space (s : jsstring) : jsstring * jsstring :=
  match s with
  | c :: s' =>
      if is_js_whitespace c then ([], s)
      else let '(run, rest) := span_not_space s' in (c :: run, rest)
  | [] => ([], [])
  end.

(** [/(https?:\/\/[^\s]+)/]: [s?] takes an [s] when there is one (the
    alternative without it would need [:] in its place), and [[^\s]+] takes
    the longest run, which must not be empty. *)
Definition re_url : regexp := fun s =>
  match strip_prefix (lit "http") s with
  | None => None
  | Some r1 =>
      let '(scheme, r2) :=
        match r1 with
        | c :: r => if c =? 115 then (lit "https", r) else (lit "http", r1)
        | [] => (lit "http", r1)
        end in
      match strip_prefix (lit "://") r2 with
      | None => None
      | Some r3 =>
          match span_not_space r3 with
          | ([], _) => None
          | (run, rest) => Some (scheme ++ lit "://" ++ run, rest)
          end
      end
  end.

(** The object literal of [escapeHtml], applied to a match. *)
Definition html_entity (m : jsstring) : jsstring :=
  match m with
  | [38] => lit "&amp;"
  | [60] => lit "&lt;"
  | [62] => lit "&gt;"
  | [34] => lit "&quot;"
  | [39] => lit "&#039;"
  | _ => m
  end.

Definition escapeHtml_string (unsafe : jsstring) : jsstring :=
  replace_g re_html_special html_entity unsafe.

Definition quot : jsstring := [34].

(** The replacement of [linkify], with the match in place of [$1]. *)
Definition anchor (url : jsstring) : jsstring :=
  lit "<a href=" ++ quot ++ url ++ quot ++ lit " target=" ++ quot ++ lit "_blank" ++ quot
  ++ lit " rel=" ++ quot ++ lit "noopener" ++ quot ++ lit ">" ++ url ++ lit "</a>".

Definition linkify (text : jsstring) : jsstring := replace_g re_url anchor text.

(** [.replace(/\n/g,'<br>')] *)
Definition replace_newlines (text : jsstring) : jsstring :=
  replace_g re_newline (fun _ => lit "<br>") text.

(** [escapeHtml(unsafe)]: [unsafe.replace] exists on strings only. *)
Definition escapeHtml (unsafe : jsval) : result jserror jsstring :=
  match unsafe with
  | JStr s => Ok (escapeHtml_string s)
  | JUndefined => Raise (TypeError (lit "Cannot read properties of undefined (reading 'replace')"))
  | JNull => Raise (TypeError (lit "Cannot read properties of null (reading 'replace')"))
  | _ => Raise (TypeError (lit "unsafe.replace is not a function"))
  end.

(** ** JSON

    [JSON.stringify] and [JSON.parse] of the engine, on the values above.
    The conversions between a number literal and a double are the engine's
    and are taken as given. *)

Section Engine.

Variable StringToNumber : jsstring → spec_float.
Variable NumberToString : spec_float → jsstring.

Definition hex_digit (d : N) : N := if d <? 10 then 48 + d else 87 + d.

Definition hex4 (c : N) : jsstring :=
  [hex_digit (c / 4096 mod 16); hex_digit (c / 256 mod 16);
   hex_digit (c / 16 mod 16); hex_digit (c mod 16)].

Definition unicode_escape (c : N) : jsstring := lit "\u" ++ hex4 c.

Definition is_leading_surrogate (c : N) : bool := (55296 <=? c) && (c <=? 56319).
Definition is_trailing_surrogate (c : N) : bool := (56320 <=? c) && (c <=? 57343).

(** QuoteJSONString, without the enclosing quotes: the short escapes,
    [\uXXXX] for the other control characters and for a surrogate that is
    not part of a pair, every other character as it is. *)
Fixpoint quote_chars (s : jsstring) : jsstring :=
  match s with
  | [] => []
  | c :: s' =>
      if c =? 8 then lit "\b" ++ quote_chars s'
      else if c =? 9 then lit "\t" ++ quote_chars s'
      else if c =? 10 then lit "\n" ++ quote_chars s'
      else if c =? 12 then lit "\f" ++ quote_chars s'
      else if c =? 13 then lit "\r" ++ quote_chars s'
      else if c =? 34 then [92; 34] ++ quote_chars s'
      else if c =? 92 then [92; 92] ++ quote_chars s'
      else if c <? 32 then unicode_escape c ++ quote_chars s'
      else if is_leading_surrogate c then
        match s' with
        | d :: s'' =>
            if is_trailing_surrogate d then c :: d :: quote_chars s''
            else unicode_escape c ++ quote_chars s'
        | [] => unicode_escape c
        end
      else if is_trailing_surrogate c then unicode_escape c ++ quote_chars s'
      else c :: quote_chars s'
  end.

Definition QuoteJSONString (s : jsstring) : jsstring := quot ++ quote_chars s ++ quot.

Fixpoint join_comma (l : list jsstring) : jsstring :=
  match l with
  | [] => []
  | [x] => x
  | x :: rest => x ++ lit "," ++ join_comma rest
  end.

Definition is_finite (n : spec_float) : bool :=
  match n with S754_zero _ | S754_finite _ _ _ => true | _ => false end.

(** SerializeJSONProperty; [None] is [undefined].  In an array [undefined]
    is written [null], in an object the property is left out. *)
Fixpoint SerializeJSONProperty (v : jsval) : option jsstring :=
  match v with
  | JUndefined => None
  | JNull => Some (lit "null")
  | JBool b => Some (if b then lit "true" else lit "false")
  | JNum n => Some (if is_finite n then NumberToString n else lit "null")
  | JStr s => Some (QuoteJSONString s)
  | JArr elems =>
      Some (lit "[" ++
            join_comma (map (fun e => default (lit "null") (SerializeJSONProperty e)) elems)
            ++ lit "]")
  | JObj props =>
      Some (lit "{" ++
            join_comma
              (omap (fun kv =>
                       match SerializeJSONProperty (snd kv) with
                       | Some t => Some (QuoteJSONString (fst kv) ++ lit ":" ++ t)
                       | None => None
                       end) props)
            ++ lit "}")
  end.

Definition JSON_stringify (v : jsval) : option jsstring := SerializeJSONProperty v.

(** *** Parsing *)

Definition is_json_space (c : N) : bool :=
  (c =? 9) || (c =? 10) || (c =? 13) || (c =? 32).

Fixpoint skip_ws (s : jsstring) : jsstring :=
  match s with
  | c :: s' => if is_json_space c then skip_ws s' else s
  | [] => []
  end.

Definition hex_value (c : N) : option N :=
  if (48 <=? c) && (c <=? 57) then Some (c - 48)
  else if (65 <=? c) && (c <=? 70) then Some (c - 55)
  else if (97 <=? c) && (c <=? 102) then Some (c - 87)
  else None.

Definition parse_hex4 (a b c d : N) : option N :=
  x3 ← hex_value a; x2 ← hex_value b; x1 ← hex_value c; x0 ← hex_value d;
  Some (((x3 * 16 + x2) * 16 + x1) * 16 + x0).

(** The character a one-letter escape stands for. *)
Definition unescape (e : N) : option N :=
  if e =? 34 then Some 34 else if e =? 92 then Some 92 else if e =? 47 then Some 47
  else if e =? 98 then Some 8 else if e =? 102 then Some 12 else if e =? 110 then Some 10
  else if e =? 114 then Some 13 else if e =? 116 then Some 9 else None.

(** The characters of a string literal after its opening quote: the string
    they denote, and what follows the closing quote. *)
Fixpoint parse_chars (s : jsstring) : option (jsstring * jsstring) :=
  match s with
  | [] => None
  | c :: s' =>
      if c =? 34 then Some ([], s')
      else if c =? 92 then
        match s' with
        | e :: s'' =>
            if e =? 117 then
              match s'' with
              | h3 :: h2 :: h1 :: h0 :: r =>
                  u ← parse_hex4 h3 h2 h1 h0;
                  '(str, rest) ← parse_chars r; Some (u :: str, rest)
              | _ => None
              end
            else
              u ← unescape e;
              '(str, rest) ← parse_chars s''; Some (u :: str, rest)
        | [] => None
        end
      else if c <? 32 then None
      else '(str, rest) ← parse_chars s'; Some (c :: str, rest)
  end.

Definition is_digit (c : N) : bool := (48 <=? c) && (c <=? 57).

Fixpoint span_digits (s : jsstring) : jsstring * jsstring :=
  match s with
  | c :: s' =>
      if is_digit c then let '(ds, rest) := span_digits s' in (c :: ds, rest)
      else ([], s)
  | [] => ([], [])
  end.

Definition lex_int (s : jsstring) : option (jsstring * jsstring) :=
  match s with
  | c :: r =>
      if c =? 48 then Some ([c], r)
      else if is_digit c then let '(ds, rest) := span_digits r in Some (c :: ds, rest)
      else None
  | [] => None
  end.

Definition lex_frac (s : jsstring) : option (jsstring * jsstring) :=
  match s with
  | c :: r =>
      if c =? 46 then
        match span_digits r with
        | ([], _) => None
        | (ds, rest) => Some (c :: ds, rest)
        end
      else Some ([], s)
  | [] => Some ([], [])
  end.

Definition lex_exp (s : jsstring) : option (jsstring * jsstring) :=
  match s with
  | c :: r =>
      if (c =? 101) || (c =? 69) then
        let '(sign, r1) :=
          match r with
          | d :: r' => if (d =? 43) || (d =? 45) then ([d], r') else ([], r)
          | [] => ([], r)
          end in
        match span_digits r1 with
        | ([], _) => None
        | (ds, rest) => Some (c :: sign ++ ds, rest)
        end
      else Some ([], s)
  | [] => Some ([], [])
  end.

(** A JSON number: its text and what follows. *)
Definition lex_number (s : jsstring) : option (jsstring * jsstring) :=
  let '(minus, s0) :=
    match s with
    | c :: r => if c =? 45 then ([c], r) else ([], s)
    | [] => ([], s)
    end in
  '(i, s1) ← lex_int s0;
  '(f, s2) ← lex_frac s1;
  '(e, s3) ← lex_exp s2;
  Some (minus ++ i ++ f ++ e, s3).

(** The value of a run of decimal digits. *)
Fixpoint decimal_value (acc : N) (s : jsstring) : option N :=
  match s with
  | [] => Some acc
  | c :: s' => if is_digit c then decimal_value (10 * acc + (c - 48)) s' else None
  end.

(** An array index: a name that is the decimal numeral, with no leading
    zero, of an integer below 2^32 - 1. *)
Definition array_index (k : jsstring) : option N :=
  match k with
  | [] => None
  | [48] => Some 0
  | 48 :: _ => None
  | _ =>
      match decimal_value 0 k with
      | Some n => if n <? 4294967295 then Some n else None
      | None => None
      end
  end.

(** The order in which an object lists its own properties: array indices
    first, ascending, then the other names as they were created. *)
Definition key_before (k k' : jsstring) : bool :=
  match array_index k, array_index k' with
  | Some i, Some j => i <? j
  | Some _, None => true
  | None, _ => false
  end.

(** CreateDataProperty: a name met again keeps its place and takes the new
    value; a new name takes its place in the order of the properties. *)
Fixpoint obj_set (k : jsstring) (v : jsval) (props : list (jsstring * jsval))
  : list (jsstring * jsval) :=
  match props with
  | [] => [(k, v)]
  | (k', v') :: rest =>
      if bool_decide (k' = k) then (k', v) :: rest
      else if key_before k k' then (k, v) :: props
      else (k', v') :: obj_set k v rest
  end.

Definition obj_of_members (members : list (jsstring * jsval)) : jsval :=
  JObj (fold_left (fun props kv => obj_set (fst kv) (snd kv) props) members []).

(** Recursive descent; [fuel] bounds the depth of the calls. *)
Fixpoint parse_value (fuel : nat) (s : jsstring) {struct fuel}
  : option (jsval * jsstring) :=
  match fuel with
  | O => None
  | S fuel' =>
      match skip_ws s with
      | [] => None
      | c :: r =>
          if c =? 34 then
            '(str, rest) ← parse_chars r; Some (JStr str, rest)
          else if c =? 91 then
            match skip_ws r with
            | d :: r' =>
                if d =? 93 then Some (JArr [], r')
                else '(vs, rest) ← parse_elements fuel' r; Some (JArr vs, rest)
            | [] => None
            end
          else if c =? 123 then
            match skip_ws r with
            | d :: r' =>
                if d =? 125 then Some (JObj [], r')
                else '(ms, rest) ← parse_members fuel' r; Some (obj_of_members ms, rest)
            | [] => None
            end
          else
            match strip_prefix (lit "true") (c :: r) with
            | Some rest => Some (JBool true, rest)
            | None =>
            match strip_prefix (lit "false") (c :: r) with
            | Some rest => Some (JBool false, rest)
            | None =>
            match strip_prefix (lit "null") (c :: r) with
            | Some rest => Some (JNull, rest)
            | None =>
                '(lexeme, rest) ← lex_number (c :: r);
                Some (JNum (StringToNumber lexeme), rest)
            end end end
      end
  end
with parse_elements (fuel : nat) (s : jsstring) {struct fuel}
  : option (list jsval * jsstring) :=
  match fuel with
  | O => None
  | S fuel' =>
      '(v, r) ← parse_value fuel' s;
      match skip_ws r with
      | c :: r' =>
          if c =? 44 then '(vs, rest) ← parse_elements fuel' r'; Some (v :: vs, rest)
          else if c =? 93 then Some ([v], r')
          else None
      | [] => None
      end
  end
with parse_members (fuel : nat) (s : jsstring) {struct fuel}
  : option (list (jsstring * jsval) * jsstring) :=
  match fuel with
  | O => None
  | S fuel' =>
      match skip_ws s with
      | q :: r0 =>
          if q =? 34 then
            '(k, r1) ← parse_chars r0;
            match skip_ws r1 with
            | c :: r2 =>
                if c =? 58 then
                  '(v, r3) ← parse_value fuel' r2;
                  match skip_ws r3 with
                  | d :: r4 =>
                      if d =? 44 then
                        '(ms, rest) ← parse_members fuel' r4; Some ((k, v) :: ms, rest)
                      else if d =? 125 then Some ([(k, v)], r4)
                      else None
                  | [] => None
                  end
                else None
            | [] => None
            end
          else None
      | [] => None
      end
  end.

(** [JSON.parse(text)]; [None] stands for the SyntaxError it throws. *)
Definition JSON_parse (text : jsstring) : option jsval :=
  '(v, rest) ← parse_value (2 * length text + 2) text;
  match skip_ws rest with
  | [] => Some v
  | _ :: _ => None
  end.

(** ** The page

    What the script reads and writes: the storage of the origin, the text
    area, the children of the message list, and the bodies of the requests
    posted to [apiBase], oldest first.  (The scroll position set at the end
    of [renderMessages] is layout and is left out.) *)

Record bubble := Bubble {
  className : jsstring;     (* [div.className] *)
  meta : jsstring;          (* the text of the [meta] child *)
  innerHTML : jsstring      (* the markup of the [content] child *)
}.

Record page := Page {
  localStorage : gmap jsstring jsstring;
  inputEl_value : jsstring;
  messagesEl : list bubble;
  posted : list jsstring
}.

(** Statements: they change the page and complete or throw. *)
Definition M (A : Type) : Type := page → result jserror A * page.

Definition ret {A} (a : A) : M A := fun p => (Ok a, p).
Definition throw {A} (e : jserror) : M A := fun p => (Raise e, p).
Definition bind {A B} (m : M A) (k : A → M B) : M B := fun p =>
  match m p with
  | (Ok a, p') => k a p'
  | (Raise e, p') => (Raise e, p')
  end.
Definition lift {A} (r : result jserror A) : M A := fun p => (r, p).

Notation "'let*' x ':=' c 'in' k" := (bind c (fun x => k))
  (at level 10, x binder, c at level 100, k at level 200).

Definition getItem (key : jsstring) : M (option jsstring) := fun p =>
  (Ok (localStorage p !! key), p).

Definition setItem (key value : jsstring) : M unit := fun p =>
  (Ok tt, Page (<[key := value]> (localStorage p)) (inputEl_value p) (messagesEl p) (posted p)).

Definition get_inputEl_value : M jsstring := fun p => (Ok (inputEl_value p), p).

Definition set_inputEl_value (v : jsstring) : M unit := fun p =>
  (Ok tt, Page (localStorage p) v (messagesEl p) (posted p)).

Definition clear_messagesEl : M unit := fun p =>
  (Ok tt, Page (localStorage p) (inputEl_value p) [] (posted p)).

Definition appendChild (b : bubble) : M unit := fun p =>
  (Ok tt, Page (localStorage p) (inputEl_value p) (messagesEl p ++ [b]) (posted p)).

Definition cute_chat_history : jsstring := lit "cute_chat_history".

(** [loadHistory]: [!raw] holds of [null] and of the empty string. *)
Definition loadHistory : M jsval :=
  let* raw := getItem cute_chat_history in
  match raw with
  | None => ret (JArr [])
  | Some [] => ret (JArr [])
  | Some text =>
      match JSON_parse text with
      | Some v => ret v
      | None => ret (JArr [])      (* [catch(e){return []}] *)
      end
  end.

(** [saveHistory]; [setItem] stores the text of its argument, which for
    [undefined] is that word. *)
Definition saveHistory (history : jsval) : M unit :=
  setItem cute_chat_history (default (lit "undefined") (JSON_stringify history)).

Fixpoint own_property (name : jsstring) (props : list (jsstring * jsval)) : option jsval :=
  match props with
  | [] => None
  | (k, v) :: rest => if bool_decide (k = name) then Some v else own_property name rest
  end.

(** [obj.name] for the names the script reads ([role], [content],
    [reply]), none of which a prototype provides.  The texts of the
    TypeErrors are those of V8. *)
Definition get_prop (obj : jsval) (name : string) : result jserror jsval :=
  match obj with
  | JUndefined =>
      Raise (TypeError (lit "Cannot read properties of undefined (reading '" ++ lit name ++ lit "')"))
  | JNull =>
      Raise (TypeError (lit "Cannot read properties of null (reading '" ++ lit name ++ lit "')"))
  | JObj props => Ok (default JUndefined (own_property (lit name) props))
  | _ => Ok JUndefined
  end.

(** [v === 'text'] *)
Definition strict_eq_string (v : jsval) (text : jsstring) : bool :=
  match v with
  | JStr s => bool_decide (s = text)
  | _ => false
  end.

(** The callback of [history.forEach] in [renderMessages], up to
    [appendChild]. *)
Definition render_message (m : jsval) : result jserror bubble :=
  let! role := get_prop m "role" in
  let class := lit "msg " ++ (if strict_eq_string role (lit "user") then lit "user" else lit "bot") in
  let who := if strict_eq_string role (lit "user") then lit "You" else lit "Assistant" in
  let! content := get_prop m "content" in
  let! escaped := escapeHtml content in
  Ok (Bubble class who (replace_newlines (linkify escaped))).

Fixpoint forEach_render (elems : list jsval) : M unit :=
  match elems with
  | [] => ret tt
  | m :: rest =>
      let* div := lift (render_message m) in
      let* _ := appendChild div in
      forEach_render rest
  end.

Definition renderMessages (history : jsval) : M unit :=
  let* _ := clear_messagesEl in
  match history with
  | JArr elems => forEach_render elems
  | JUndefined => throw (TypeError (lit "Cannot read properties of undefined (reading 'forEach')"))
  | JNull => throw (TypeError (lit "Cannot read properties of null (reading 'forEach')"))
  | _ => throw (TypeError (lit "history.forEach is not a function"))
  end.

(** ** [sendMessage] *)

(** The outcome of [fetch], and of [resp.json()] on a response. *)
Inductive json_outcome : Type :=
| JsonResolves (data : jsval)
| JsonRejects (e : jserror).

Inductive fetch_outcome : Type :=
| FetchResolves (ok : bool) (statusText : jsstring) (json : json_outcome)
| FetchRejects (e : jserror).

(** The network and the server, as seen from the page: what a POST of a
    body to [apiBase] comes to. *)
Variable fetch : jsstring → fetch_outcome.

Definition post (body : jsstring) (p : page) : fetch_outcome * page :=
  (fetch body,
   Page (localStorage p) (inputEl_value p) (messagesEl p) (posted p ++ [body])).

Definition message (role : string) (content : jsval) : jsval :=
  JObj [(lit "role", JStr (lit role)); (lit "content", content)].

(** The horizontal ellipsis, the content of the placeholder. *)
Definition ellipsis : jsstring := [8230].

Definition typingPlaceholder : jsval := message "assistant" (JStr ellipsis).

(** [history.push(x)], [history] being whatever [loadHistory] returned. *)
Definition push (history : jsval) (x : jsval) : result jserror (list jsval) :=
  match history with
  | JArr elems => Ok (elems ++ [x])
  | JUndefined => Raise (TypeError (lit "Cannot read properties of undefined (reading 'push')"))
  | JNull => Raise (TypeError (lit "Cannot read properties of null (reading 'push')"))
  | _ => Raise (TypeError (lit "history.push is not a function"))
  end.

(** [history.filter(m=>m.content !== ...)], the ellipsis being compared
    with. *)
Fixpoint filter_content_not_ellipsis (history : list jsval) : result jserror (list jsval) :=
  match history with
  | [] => Ok []
  | m :: rest =>
      let! content := get_prop m "content" in
      let! kept := filter_content_not_ellipsis rest in
      Ok (if strict_eq_string content ellipsis then kept else m :: kept)
  end.

(** The block of [try] (lines 167-179).  The array [history] is changed in
    place, so the block also gives the array as it is when the block ends
    or throws. *)
Definition try_block (history : list jsval) (p : page)
  : result jserror unit * list jsval * page :=
  match filter_content_not_ellipsis history with
  | Raise e => (Raise e, history, p)
  | Ok kept =>
      let body := default (lit "undefined")
                    (JSON_stringify (JObj [(lit "messages", JArr kept)])) in
      match post body p with
      | (FetchRejects e, p1) => (Raise e, history, p1)
      | (FetchResolves ok statusText json, p1) =>
          if negb ok then (Raise (Error (lit "Server error: " ++ statusText)), history, p1)
          else
            match json with
            | JsonRejects e => (Raise e, history, p1)
            | JsonResolves data =>
                let history1 := removelast history in                (* [history.pop()] *)
                match get_prop data "reply" with
                | Raise e => (Raise e, history1, p1)
                | Ok reply =>
                    let history2 := history1 ++ [message "assistant" reply] in
                    let '(r, p2) :=
                      (let* _ := saveHistory (JArr history2) in
                       renderMessages (JArr history2)) p1 in
                    (r, history2, p2)
                end
            end
      end
  end.

(** The block of [catch(err)]. *)
Definition catch_block (err : jserror) (history : list jsval) : M unit :=
  let history1 := removelast history in
  let history2 :=
    history1 ++ [message "assistant" (JStr (lit "Error: " ++ err_message err))] in
  let* _ := saveHistory (JArr history2) in
  renderMessages (JArr history2).

Definition sendMessage : M unit :=
  let* value := get_inputEl_value in
  let raw := trim value in
  match raw with
  | [] => ret tt                                       (* [if(!raw) return;] *)
  | _ :: _ =>
      let* _ := set_inputEl_value [] in
      let* loaded := loadHistory in
      let* history := lift (push loaded (message "user" (JStr raw))) in
      let* _ := renderMessages (JArr history) in
      let* _ := saveHistory (JArr history) in
      let history := history ++ [typingPlaceholder] in
      let* _ := renderMessages (JArr history) in
      fun p =>
        match try_block history p with
        | (Ok _, _, p') => (Ok tt, p')
        | (Raise err, history', p') => catch_block err history' p'
        end
  end.

(** The last statement of the script. *)
Definition initialize : M unit :=
  let* history := loadHistory in
  renderMessages history.

(** ** What the specification says of rendering *)

(** A Message: a role and a content, both strings. *)
Record Message := { msg_role : jsstring; msg_content : jsstring }.

Definition to_js (m : Message) : jsval :=
  JObj [(lit "role", JStr (msg_role m)); (lit "content", JStr (msg_content m))].

(** Escaping of the five characters, one character at a time. *)
Definition escape_char (c : N) : jsstring :=
  if c =? 38 then lit "&amp;"
  else if c =? 60 then lit "&lt;"
  else if c =? 62 then lit "&gt;"
  else if c =? 34 then lit "&quot;"
  else if c =? 39 then lit "&#039;"
  else [c].

(** A newline becomes a line break. *)
Definition newline_to_br (c : N) : jsstring := if c =? 10 then lit "<br>" else [c].

(** The tags the renderer itself writes, up to where they end or take the
    text of the message. *)
Definition tags : list jsstring := [lit "<a href="; lit "</a>"; lit "<br>"].

(** Text in which an opening angle bracket only ever opens one of these
    tags. *)
Inductive template_markup : jsstring → Prop :=
| tm_end : template_markup []
| tm_text c s : c ≠ 60 → template_markup s → template_markup (c :: s)
| tm_tag t s : In t tags → template_markup s → template_markup (t ++ s).

Definition not_lt (c : N) : Prop := c ≠ 60.

(** A character that is neither an angle bracket nor a quote. *)
Definition plain (c : N) : Prop := c ≠ 60 ∧ c ≠ 62 ∧ c ≠ 34 ∧ c ≠ 39.

(** A bare URL: [http] or [https], then [://], then at least one character,
    none of them white space. *)
Definition is_url (url : jsstring) : Prop :=
  ∃ scheme run,
    (scheme = lit "http" ∨ scheme = lit "https") ∧
    url = scheme ++ lit "://" ++ run ∧
    run ≠ [] ∧ Forall (fun c => is_js_whitespace c = false) run.

(** Where a URL stops: at the end of the text or before white space. *)
Definition run_ends (rest : jsstring) : Prop :=
  match rest with
  | [] => True
  | c :: _ => is_js_whitespace c = true
  end.

(** The link written for a URL: an anchor that opens it in a new tab, with
    the URL as its text. *)
Definition link_to (url : jsstring) : jsstring :=
  lit "<a href=" ++ [34] ++ url ++ [34] ++ lit " target=" ++ [34] ++ lit "_blank" ++ [34]
  ++ lit " rel=" ++ [34] ++ lit "noopener" ++ [34] ++ lit ">" ++ url ++ lit "</a>".

(** A text and the same text with its bare URLs made links: reading from
    the left, a URL taken as far as it goes becomes its link, and a
    character at which no URL begins is copied. *)
Inductive Linkified : jsstring → jsstring → Prop :=
| linkified_end : Linkified [] []
| linkified_url url rest out :
    is_url url → run_ends rest → Linkified rest out →
    Linkified (url ++ rest) (link_to url ++ out)
| linkified_char c rest out :
    (∀ url rest', c :: rest = url ++ rest' → ¬ is_url url) →
    Linkified rest out →
    Linkified (c :: rest) (c :: out).

(** The element [renderMessages] builds for a Message. *)
Definition rendered (m : Message) : bubble :=
  Bubble
    (lit "msg " ++ (if bool_decide (msg_role m = lit "user") then lit "user" else lit "bot"))
    (if bool_decide (msg_role m = lit "user") then lit "You" else lit "Assistant")
    (replace_newlines (linkify (flat_map escape_char (msg_content m)))).

(** ** What the specification says of persistence *)

(** The text [JSON.stringify] gives for a Message and for a history. *)
Definition message_text (m : Message) : jsstring :=
  lit "{" ++ QuoteJSONString (lit "role") ++ lit ":" ++ QuoteJSONString (msg_role m)
  ++ lit "," ++ QuoteJSONString (lit "content") ++ lit ":" ++ QuoteJSONString (msg_content m)
  ++ lit "}".

Definition history_text (history : list Message) : jsstring :=
  lit "[" ++ join_comma (map message_text history) ++ lit "]".

(** ** What the specification says of the request *)

(** The Messages the filter of [sendMessage] keeps. *)
Definition content_not_ellipsis (m : Message) : bool :=
  negb (bool_decide (msg_content m = ellipsis)).

(** The body posted for a sequence of Messages. *)
Definition request_text (messages : list Message) : jsstring :=
  lit "{" ++ QuoteJSONString (lit "messages") ++ lit ":" ++ history_text messages ++ lit "}".

(** ** What a turn leaves behind *)

Definition user_message (raw : jsstring) : Message := Build_Message (lit "user") raw.

Definition assistant_message (text : jsstring) : Message :=
  Build_Message (lit "assistant") text.

(** The body [sendMessage] posts for a stored history and a trimmed input. *)
Definition turn_body (history : list Message) (raw : jsstring) : jsstring :=
  request_text (List.filter content_not_ellipsis (history ++ [user_message raw])).

(** The error with which the block of [try] ends before a reply is read:
    [fetch] rejected, the response was not [ok], or its body did not parse. *)
Definition response_error (o : fetch_outcome) : option jserror :=
  match o with
  | FetchRejects e => Some e
  | FetchResolves false statusText _ => Some (Error (lit "Server error: " ++ statusText))
  | FetchResolves true _ (JsonRejects e) => Some e
  | FetchResolves true _ (JsonResolves _) => None
  end.

(** The page after a turn: the text area empty, the history [final] stored
    and shown, and [body] posted. *)
Definition settled (p : page) (final : list Message) (body : jsstring) : page :=
  Page (<[cute_chat_history := history_text final]> (localStorage p)) []
       (map rendered final) (posted p ++ [body]).

(** Two pages that differ at most in the stored history and in what is
    shown. *)
Definition quiet (p p' : page) : Prop :=
  (∀ k, k ≠ cute_chat_history → localStorage p' !! k = localStorage p !! k) ∧
  inputEl_value p' = inputEl_value p ∧
  posted p' = posted p.

(** Whether an expression matches at some position of a text. *)
Fixpoint matches_somewhere (re : regexp) (s : jsstring) : bool :=
  match s with
  | [] => false
  | _ :: s' => bool_decide (is_Some (re s)) || matches_somewhere re s'
  end.

Definition is_array (v : jsval) : bool :=
  match v with JArr _ => true | _ => false end.

(** ** Some pages and networks *)

(** An engine for histories in which no number occurs. *)
Definition zero_of_literal (lexeme : jsstring) : spec_float := S754_zero false.
Definition text_of_zero (n : spec_float) : jsstring := lit "0".

(** A server that answers every request with the same reply. *)
Definition replying (body : jsstring) : fetch_outcome :=
  FetchResolves true (lit "OK") (JsonResolves (JObj [(lit "reply", JStr (lit "Hello!"))])).

(** A fresh page with three spaces typed. *)
Definition blank_page : page := Page ∅ (lit "   ") [] [].

(** A fresh page with [hi] typed between spaces. *)
Definition typed_hi : page := Page ∅ (lit " hi ") [] [].

(** A network that is down, and servers that answer 200 with [null] and
    with an object that has no [reply]. *)
Definition offline (body : jsstring) : fetch_outcome :=
  FetchRejects (TypeError (lit "Failed to fetch")).

Definition answering_null (body : jsstring) : fetch_outcome :=
  FetchResolves true (lit "OK") (JsonResolves JNull).

Definition answering_empty (body : jsstring) : fetch_outcome :=
  FetchResolves true (lit "OK") (JsonResolves (JObj [])).

(** A page whose storage holds the JSON text [null], with [hi] typed. *)
Definition null_stored : page := Page {[ cute_chat_history := lit "null" ]} (lit "hi") [] [].

(** A page whose storage holds one user Message. *)
Definition hi_stored : page :=
  Page {[ cute_chat_history := history_text [user_message (lit "hi")] ]} [] [] [].

(** ** Facts about the client *)

(** *** [trim] and the guard of [sendMessage] *)

Lemma trimStart_blank (s : jsstring) :
  Forall (fun c => is_js_whitespace c = true) s → trimStart s = [].
Proof.
  induction 1 as [|c s Hc _ IH]; simpl; [reflexivity|].
  by rewrite Hc.
Qed.

Lemma trim_blank (s : jsstring) :
  Forall (fun c => is_js_whitespace c = true) s → trim s = [].
Proof. intros H. unfold trim. by rewrite (trimStart_blank _ H). Qed.

(** C7: when the text area holds nothing or only white space,
    [sendMessage] completes and leaves the page as it was: nothing is
    appended or rendered, storage is not written, and nothing is posted. *)
Theorem sendMessage_blank_input (p : page) :
  Forall (fun c => is_js_whitespace c = true) (inputEl_value p) →
  sendMessage p = (Ok tt, p).
Proof.
  intros Hblank. unfold sendMessage, bind, get_inputEl_value.
  by rewrite (trim_blank _ Hblank).
Qed.

(** *** Rendering *)

Ltac case_eqb c k := destruct (N.eqb_spec c k) as [->|?].

Ltac eval_tests :=
  repeat (match goal with
          | |- context [?a =? ?b] =>
              let v := eval vm_compute in (a =? b) in
              match v with
              | true => change (a =? b) with true
              | false => change (a =? b) with false
              end
          end; cbv iota).

Lemma replace_from_html_special (n : nat) (s : jsstring) :
  (length s <= n)%nat →
  replace_from n re_html_special html_entity s = flat_map escape_char s.
Proof.
  revert s. induction n as [|n IH]; intros [|c s] Hlen; simpl in Hlen; try reflexivity; try lia.
  cbn [replace_from re_html_special flat_map]. unfold escape_char.
  case_eqb c 38; [cbn; by rewrite IH by lia|].
  case_eqb c 60; [cbn; by rewrite IH by lia|].
  case_eqb c 62; [cbn; by rewrite IH by lia|].
  case_eqb c 34; [cbn; by rewrite IH by lia|].
  case_eqb c 39; [cbn; by rewrite IH by lia|].
  cbn. by rewrite IH by lia.
Qed.

Lemma escapeHtml_string_chars (s : jsstring) :
  escapeHtml_string s = flat_map escape_char s.
Proof. apply replace_from_html_special. done. Qed.

Lemma replace_from_newline (n : nat) (s : jsstring) :
  (length s <= n)%nat →
  replace_from n re_newline (fun _ => lit "<br>") s = flat_map newline_to_br s.
Proof.
  revert s. induction n as [|n IH]; intros [|c s] Hlen; simpl in Hlen; try reflexivity; try lia.
  cbn [replace_from re_newline flat_map]. unfold newline_to_br.
  case_eqb c 10; cbn; by rewrite IH by lia.
Qed.

Lemma replace_newlines_chars (s : jsstring) :
  replace_newlines s = flat_map newline_to_br s.
Proof. apply replace_from_newline. done. Qed.

Lemma escape_char_plain (c : N) : Forall plain (escape_char c).
Proof.
  unfold escape_char, plain.
  case_eqb c 38; [by repeat constructor|].
  case_eqb c 60; [by repeat constructor|].
  case_eqb c 62; [by repeat constructor|].
  case_eqb c 34; [by repeat constructor|].
  case_eqb c 39; [by repeat constructor|].
  by repeat constructor.
Qed.

(** After escaping, no angle bracket and no quote is left. *)
Lemma escapeHtml_string_plain (s : jsstring) : Forall plain (escapeHtml_string s).
Proof.
  rewrite escapeHtml_string_chars.
  induction s as [|c s IH]; simpl; [constructor|].
  apply Forall_app. split; [apply escape_char_plain | exact IH].
Qed.

Lemma escapeHtml_string_not_lt (s : jsstring) : Forall not_lt (escapeHtml_string s).
Proof.
  apply (Forall_impl _ _ _ (escapeHtml_string_plain s)). by intros c [H _].
Qed.

Lemma strip_prefix_Some (p s r : jsstring) :
  strip_prefix p s = Some r → s = p ++ r.
Proof.
  revert s. induction p as [|a p IH]; intros [|b s]; simpl; try congruence.
  case_eqb a b; [|discriminate]. intros H. by rewrite (IH _ H).
Qed.

Lemma span_not_space_app (s : jsstring) :
  s = fst (span_not_space s) ++ snd (span_not_space s).
Proof.
  induction s as [|c s IH]; simpl; [reflexivity|].
  destruct (is_js_whitespace c); [reflexivity|].
  destruct (span_not_space s) as [run rest]; simpl in *. by rewrite <- IH.
Qed.

Lemma re_url_Some (s m rest : jsstring) :
  re_url s = Some (m, rest) → s = m ++ rest ∧ (length rest < length s)%nat.
Proof.
  unfold re_url.
  destruct (strip_prefix (lit "http") s) as [r1|] eqn:H1; [|discriminate].
  apply strip_prefix_Some in H1.
  set (pick := match r1 with c :: r => if c =? 115 then (lit "https", r) else (lit "http", r1) | [] => (lit "http", r1) end).
  assert (Hpick : lit "http" ++ r1 = fst pick ++ snd pick).
  { subst pick. destruct r1 as [|c r]; [reflexivity|].
    case_eqb c 115; reflexivity. }
  destruct pick as [scheme r2]. cbn [fst snd] in Hpick.
  destruct (strip_prefix (lit "://") r2) as [r3|] eqn:H3; [|discriminate].
  apply strip_prefix_Some in H3.
  pose proof (span_not_space_app r3) as Hspan.
  destruct (span_not_space r3) as [[|c run] rest']; [discriminate|].
  intros [= <- <-]. cbn [fst snd] in Hspan. subst s r2. rewrite Hpick.
  rewrite Hspan. rewrite <- !app_assoc. split; [reflexivity|].
  rewrite !length_app. destruct scheme; cbn [length]; lia.
Qed.

Lemma template_markup_text (t s : jsstring) :
  Forall not_lt t → template_markup s → template_markup (t ++ s).
Proof.
  induction 1 as [|c t Hc _ IH]; intros Hs; [exact Hs|].
  cbn [app]. apply tm_text; [exact Hc | exact (IH Hs)].
Qed.

Lemma anchor_markup (url s : jsstring) :
  Forall not_lt url → template_markup s → template_markup (anchor url ++ s).
Proof.
  intros Hurl Hs. unfold anchor. rewrite <- !app_assoc.
  apply tm_tag; [by left|].
  repeat (apply template_markup_text; [first [exact Hurl | by repeat constructor]|]).
  apply (tm_tag (lit "</a>")); [right; by left | exact Hs].
Qed.

Lemma replace_from_url_markup (n : nat) (s : jsstring) :
  (length s <= n)%nat → Forall not_lt s →
  template_markup (replace_from n re_url anchor s).
Proof.
  revert s. induction n as [|n IH]; intros [|c s] Hlen Hs; cbn [length] in Hlen;
    try (cbn; constructor); try lia.
  cbn [replace_from].
  destruct (re_url (c :: s)) as [[m rest]|] eqn:Hre.
  - apply re_url_Some in Hre as [Heq Hlt]. cbn [length] in Hlt.
    rewrite Heq in Hs. apply Forall_app in Hs as [Hm Hrest].
    apply anchor_markup; [exact Hm|]. apply IH; [lia | exact Hrest].
  - inversion Hs; subst. apply tm_text; [assumption|]. apply IH; [lia | assumption].
Qed.

Lemma linkify_markup (text : jsstring) :
  Forall not_lt text → template_markup (linkify text).
Proof. apply replace_from_url_markup. done. Qed.

Lemma tag_newline_free (t : jsstring) : In t tags → flat_map newline_to_br t = t.
Proof. intros [<-|[<-|[<-|[]]]]; reflexivity. Qed.

Lemma replace_newlines_markup (text : jsstring) :
  template_markup text → template_markup (replace_newlines text).
Proof.
  rewrite replace_newlines_chars.
  induction 1 as [|c s Hc _ IH|t s Ht _ IH]; cbn [flat_map].
  - constructor.
  - unfold newline_to_br at 1. case_eqb c 10.
    + apply (tm_tag (lit "<br>")); [right; right; by left | exact IH].
    + cbn [app]. by apply tm_text.
  - rewrite flat_map_app, (tag_newline_free _ Ht). by apply tm_tag.
Qed.

Lemma tag_shape (t : jsstring) :
  In t tags → ∃ t', t = 60 :: t' ∧ Forall not_lt t'.
Proof.
  intros [<-|[<-|[<-|[]]]]; eexists; (split; [reflexivity|]); by repeat constructor.
Qed.

Lemma text_before_lt (t s pre post : jsstring) :
  Forall not_lt t → t ++ s = pre ++ 60 :: post →
  ∃ pre', pre = t ++ pre' ∧ s = pre' ++ 60 :: post.
Proof.
  intros Ht. revert pre. induction Ht as [|c t Hc _ IH]; intros pre Heq.
  - exists pre. done.
  - destruct pre as [|d pre]; cbn [app] in Heq; injection Heq as -> Heq; [done|].
    destruct (IH _ Heq) as (pre' & -> & ->). by exists pre'.
Qed.

(** In text made of the templates, every opening angle bracket opens one of
    their tags. *)
Lemma template_markup_lt (text : jsstring) :
  template_markup text →
  ∀ pre post, text = pre ++ 60 :: post →
  ∃ tag rest, In tag tags ∧ 60 :: post = tag ++ rest.
Proof.
  induction 1 as [|c s Hc _ IH|t s Ht _ IH]; intros pre post Heq.
  - by destruct pre.
  - destruct pre as [|d pre]; cbn [app] in Heq; injection Heq as -> Heq; [done|].
    by apply (IH pre).
  - destruct (tag_shape _ Ht) as (t' & -> & Ht').
    destruct pre as [|d pre]; cbn [app] in Heq.
    + exists (60 :: t'), s. split; [exact Ht|]. by rewrite <- Heq.
    + injection Heq as _ Heq.
      destruct (text_before_lt _ _ _ _ Ht' Heq) as (pre' & _ & Hs).
      by apply (IH pre').
Qed.

Lemma template_markup_no_script (text : jsstring) :
  template_markup text →
  ∀ pre post, text ≠ pre ++ lit "<script" ++ post.
Proof.
  intros Hm pre post Heq.
  destruct (template_markup_lt _ Hm pre (lit "script" ++ post) Heq)
    as (tag & rest & [<-|[<-|[<-|[]]]] & Htag); discriminate.
Qed.

Lemma render_message_to_js (m : Message) : render_message (to_js m) = Ok (rendered m).
Proof.
  unfold render_message, to_js, rendered. cbn [get_prop own_property default from_option id].
  replace (bool_decide (lit "role" = lit "role")) with true by reflexivity.
  replace (bool_decide (lit "role" = lit "content")) with false by reflexivity.
  replace (bool_decide (lit "content" = lit "content")) with true by reflexivity.
  cbn [from_option id escapeHtml strict_eq_string]. rewrite escapeHtml_string_chars.
  reflexivity.
Qed.

Lemma forEach_render_messages (history : list Message) (p : page) :
  forEach_render (map to_js history) p =
  (Ok tt, Page (localStorage p) (inputEl_value p)
            (messagesEl p ++ map rendered history) (posted p)).
Proof.
  revert p. induction history as [|m history IH]; intros p; cbn [map forEach_render].
  - unfold ret. rewrite app_nil_r. by destruct p.
  - unfold bind, lift, appendChild. rewrite render_message_to_js, IH.
    cbn [localStorage inputEl_value messagesEl posted]. by rewrite <- app_assoc.
Qed.

Lemma renderMessages_messages (history : list Message) (p : page) :
  renderMessages (JArr (map to_js history)) p =
  (Ok tt, Page (localStorage p) (inputEl_value p) (map rendered history) (posted p)).
Proof.
  unfold renderMessages, bind, clear_messagesEl. by rewrite forEach_render_messages.
Qed.

(** Which texts [re_url] matches, and how far. *)

Lemma span_not_space_spec (s : jsstring) :
  s = fst (span_not_space s) ++ snd (span_not_space s) ∧
  Forall (fun c => is_js_whitespace c = false) (fst (span_not_space s)) ∧
  run_ends (snd (span_not_space s)).
Proof.
  induction s as [|c s (Hs & Hrun & Hrest)]; [by repeat split|].
  cbn [span_not_space]. destruct (is_js_whitespace c) eqn:Hc; [by repeat split|].
  destruct (span_not_space s) as [run rest]. cbn [fst snd] in *.
  split; [by rewrite Hs at 1|]. split; [by constructor|exact Hrest].
Qed.

Lemma span_not_space_max (run rest : jsstring) :
  Forall (fun c => is_js_whitespace c = false) run → run_ends rest →
  span_not_space (run ++ rest) = (run, rest).
Proof.
  intros Hrun Hrest. induction Hrun as [|c run Hc _ IH]; cbn [app].
  - destruct rest as [|c rest]; [reflexivity|]. cbn [span_not_space run_ends] in *.
    by rewrite Hrest.
  - cbn [span_not_space]. by rewrite Hc, IH.
Qed.

Lemma is_url_not_nil : ¬ is_url [].
Proof.
  intros (scheme & run & [->| ->] & Hurl & _); discriminate Hurl.
Qed.

(** A URL taken as far as it goes is what [re_url] matches there. *)
Lemma re_url_at (url rest : jsstring) :
  is_url url → run_ends rest → re_url (url ++ rest) = Some (url, rest).
Proof.
  intros (scheme & run & Hscheme & -> & Hne & Hrun) Hrest. unfold re_url.
  destruct Hscheme as [-> | ->].
  - change ((lit "http" ++ lit "://" ++ run) ++ rest)
      with (104 :: 116 :: 116 :: 112 :: 58 :: 47 :: 47 :: (run ++ rest)).
    change (lit "http") with [104; 116; 116; 112]. change (lit "://") with [58; 47; 47].
    cbn [strip_prefix]. eval_tests. cbn [strip_prefix]. eval_tests.
    rewrite (span_not_space_max _ _ Hrun Hrest). destruct run; [done|reflexivity].
  - change ((lit "https" ++ lit "://" ++ run) ++ rest)
      with (104 :: 116 :: 116 :: 112 :: 115 :: 58 :: 47 :: 47 :: (run ++ rest)).
    change (lit "http") with [104; 116; 116; 112]. change (lit "://") with [58; 47; 47].
    cbn [strip_prefix]. eval_tests. cbn [strip_prefix]. eval_tests.
    rewrite (span_not_space_max _ _ Hrun Hrest). destruct run; [done|reflexivity].
Qed.

(** What [re_url] matches is a URL taken as far as it goes. *)
Lemma re_url_is_url (s m rest : jsstring) :
  re_url s = Some (m, rest) → s = m ++ rest ∧ is_url m ∧ run_ends rest.
Proof.
  unfold re_url.
  destruct (strip_prefix (lit "http") s) as [r1|] eqn:H1; [|discriminate].
  apply strip_prefix_Some in H1. subst s.
  set (pick := match r1 with
               | c :: r => if c =? 115 then (lit "https", r) else (lit "http", r1)
               | [] => (lit "http", r1)
               end).
  assert (Hpick : (fst pick = lit "http" ∨ fst pick = lit "https") ∧
                  lit "http" ++ r1 = fst pick ++ snd pick).
  { subst pick. destruct r1 as [|c r]; [by split; [left|]|].
    case_eqb c 115; split; try reflexivity; auto. }
  destruct pick as [scheme r2]. cbn [fst snd] in Hpick. destruct Hpick as [Hscheme Hpick].
  destruct (strip_prefix (lit "://") r2) as [r3|] eqn:H3; [|discriminate].
  apply strip_prefix_Some in H3. subst r2.
  destruct (span_not_space_spec r3) as (Hr3 & Hrun & Hrest).
  destruct (span_not_space r3) as [[|c run] rest']; [discriminate|].
  cbn [fst snd] in *. intros [= <- <-]. split; [|split].
  - rewrite Hpick, Hr3. by rewrite <- !app_assoc.
  - exists scheme, (c :: run). by repeat split.
  - exact Hrest.
Qed.

(** Where [re_url] does not match, no URL begins. *)
Lemma re_url_None (s : jsstring) :
  re_url s = None → ∀ url rest, s = url ++ rest → ¬ is_url url.
Proof.
  intros Hnone url rest -> Hurl.
  destruct (span_not_space_spec rest) as (Hrest & Hrun & Hends).
  destruct (span_not_space rest) as [more rest']. cbn [fst snd] in *.
  assert (His : is_url (url ++ more)).
  { destruct Hurl as (scheme & run & Hscheme & -> & Hne & Hrun').
    exists scheme, (run ++ more). split; [exact Hscheme|]. split; [by rewrite <- !app_assoc|].
    split; [by destruct run|]. by apply Forall_app. }
  rewrite Hrest, app_assoc, (re_url_at _ _ His Hends) in Hnone. discriminate.
Qed.

Lemma link_to_anchor (url : jsstring) : anchor url = link_to url.
Proof. reflexivity. Qed.

Lemma replace_from_url_linkified (n : nat) (s : jsstring) :
  (length s <= n)%nat → Linkified s (replace_from n re_url anchor s).
Proof.
  revert s. induction n as [|n IH]; intros [|c s] Hlen; cbn [length] in Hlen;
    try (cbn; constructor); try lia.
  cbn [replace_from].
  destruct (re_url (c :: s)) as [[m rest]|] eqn:Hre.
  - destruct (re_url_is_url _ _ _ Hre) as (Heq & Hurl & Hends).
    apply re_url_Some in Hre as [_ Hre]. cbn [length] in Hre.
    rewrite Heq, link_to_anchor. apply linkified_url; [exact Hurl|exact Hends|].
    apply IH. lia.
  - apply linkified_char; [exact (re_url_None _ Hre)|]. apply IH. lia.
Qed.

Lemma linkify_linkified (text : jsstring) : Linkified text (linkify text).
Proof. by apply replace_from_url_linkified. Qed.

(** A text has one linkified form. *)
Lemma Linkified_unique (text out1 : jsstring) :
  Linkified text out1 → ∀ out2, Linkified text out2 → out1 = out2.
Proof.
  induction 1 as [|url rest out Hurl Hends _ IH|c rest out Hno _ IH]; intros out2 H2.
  - inversion H2 as [|url rest out Hurl Hends _ Htext|]; [reflexivity|].
    apply app_eq_nil in Htext as [-> _]. by destruct is_url_not_nil.
  - inversion H2 as [Htext|url2 rest2 out' Hurl2 Hends2 Hrest2 Htext|c rest2 out' Hno _ Htext].
    + symmetry in Htext. apply app_eq_nil in Htext as [-> _]. by destruct is_url_not_nil.
    + pose proof (re_url_at _ _ Hurl Hends) as Hre1.
      pose proof (re_url_at _ _ Hurl2 Hends2) as Hre2.
      rewrite Htext, Hre1 in Hre2. injection Hre2 as <- <-.
      f_equal. by apply IH.
    + by destruct (Hno url rest).
  - inversion H2 as [|url2 rest2 out' Hurl2 _ _ Htext|c2 rest2 out' _ Hrest2]; subst.
    + by destruct (Hno url2 rest2).
    + f_equal. by apply IH.
Qed.

(** C4: [renderMessages] gives every Message the element [rendered]
    describes.  Its markup is made in three steps, in this order: the five
    characters of the content are escaped, each one by its entity (no angle
    bracket or quote is left); then the bare URLs of the escaped text are
    made links, which [Linkified] describes without the code: reading from
    the left, every [http://] or [https://] followed by at least one
    character that is not white space is taken up to the next white space
    and becomes an anchor on it, and every other character is copied; then
    each newline of the linked text becomes a line break.  [linkify] is that
    relation and no other, and the last step of the code is that character
    map.  In the markup an opening angle bracket only ever opens a tag of
    the renderer, so a [<script] of the content is never there as markup. *)
Theorem renderMessages_escapes (history : list Message) (p : page) :
  renderMessages (JArr (map to_js history)) p =
    (Ok tt, Page (localStorage p) (inputEl_value p) (map rendered history) (posted p)) ∧
  (∀ m : Message,
    innerHTML (rendered m) =
      replace_newlines (linkify (escapeHtml_string (msg_content m))) ∧
    escapeHtml_string (msg_content m) = flat_map escape_char (msg_content m) ∧
    Forall plain (escapeHtml_string (msg_content m)) ∧
    (∀ pre post, innerHTML (rendered m) = pre ++ 60 :: post →
                 ∃ tag rest, In tag tags ∧ 60 :: post = tag ++ rest) ∧
    (∀ pre post, innerHTML (rendered m) ≠ pre ++ lit "<script" ++ post) ∧
    (∃ links, Linkified (flat_map escape_char (msg_content m)) links ∧
              innerHTML (rendered m) = flat_map newline_to_br links)) ∧
  (∀ text out, Linkified text out ↔ out = linkify text) ∧
  (∀ text, replace_newlines text = flat_map newline_to_br text).
Proof.
  split; [apply renderMessages_messages|]. split; [intros m|split].
  - assert (Hm : template_markup (innerHTML (rendered m))).
    { cbn [innerHTML rendered]. rewrite <- escapeHtml_string_chars.
      apply replace_newlines_markup, linkify_markup, escapeHtml_string_not_lt. }
    split; [cbn [innerHTML rendered]; by rewrite escapeHtml_string_chars|].
    split; [apply escapeHtml_string_chars|].
    split; [apply escapeHtml_string_plain|].
    split; [by apply template_markup_lt|].
    split; [by apply template_markup_no_script|].
    exists (linkify (flat_map escape_char (msg_content m))).
    split; [apply linkify_linkified|].
    cbn [innerHTML rendered]. apply replace_newlines_chars.
  - intros text out. split; [|intros ->; apply linkify_linkified].
    intros Hout. exact (Linkified_unique _ _ Hout _ (linkify_linkified text)).
  - apply replace_newlines_chars.
Qed.

(** *** The steps of [replace_g]

    With an expression that never matches the empty string, [length s]
    steps scan the whole of [s]: more steps change nothing. *)

Lemma replace_from_steps (re : regexp) (by_ : jsstring → jsstring) :
  (∀ s m rest, re s = Some (m, rest) → (length rest < length s)%nat) →
  ∀ (n k : nat) (s : jsstring),
    (length s <= n)%nat → (length s <= k)%nat →
    replace_from n re by_ s = replace_from k re by_ s.
Proof.
  intros Hre. induction n as [|n IH]; intros k s Hn Hk.
  - destruct s; [by destruct k | cbn [length] in Hn; lia].
  - destruct s as [|c s]; [by destruct k|].
    destruct k as [|k]; [cbn [length] in Hk; lia|].
    cbn [replace_from length] in *.
    destruct (re (c :: s)) as [[m rest]|] eqn:Hm.
    + apply Hre in Hm. cbn [length] in Hm. f_equal. apply IH; lia.
    + f_equal. apply IH; lia.
Qed.

Lemma re_html_special_consumes (s m rest : jsstring) :
  re_html_special s = Some (m, rest) → (length rest < length s)%nat.
Proof.
  destruct s as [|c s]; [discriminate|]. cbn [re_html_special].
  destruct (_ || _); [|discriminate]. intros [= <- <-]. cbn [length]. lia.
Qed.

Lemma re_newline_consumes (s m rest : jsstring) :
  re_newline s = Some (m, rest) → (length rest < length s)%nat.
Proof.
  destruct s as [|c s]; [discriminate|]. cbn [re_newline].
  destruct (c =? 10); [|discriminate]. intros [= <- <-]. cbn [length]. lia.
Qed.

Lemma re_url_consumes (s m rest : jsstring) :
  re_url s = Some (m, rest) → (length rest < length s)%nat.
Proof. intros H. by apply re_url_Some in H as [_ H]. Qed.

(** *** JSON text of strings *)

Lemma hex_value_digit (d : N) : d < 16 → hex_value (hex_digit d) = Some d.
Proof.
  intros Hd. unfold hex_digit, hex_value.
  destruct (N.ltb_spec d 10).
  - replace ((48 <=? 48 + d) && (48 + d <=? 57)) with true
      by (symmetry; apply andb_true_intro; split; apply N.leb_le; lia).
    f_equal. lia.
  - replace ((48 <=? 87 + d) && (87 + d <=? 57)) with false
      by (symmetry; apply andb_false_intro2, N.leb_gt; lia).
    replace ((65 <=? 87 + d) && (87 + d <=? 70)) with false
      by (symmetry; apply andb_false_intro2, N.leb_gt; lia).
    replace ((97 <=? 87 + d) && (87 + d <=? 102)) with true
      by (symmetry; apply andb_true_intro; split; apply N.leb_le; lia).
    f_equal. lia.
Qed.

Lemma parse_hex4_hex4 (c : N) :
  c < 65536 →
  parse_hex4 (hex_digit (c / 4096 mod 16)) (hex_digit (c / 256 mod 16))
             (hex_digit (c / 16 mod 16)) (hex_digit (c mod 16)) = Some c.
Proof.
  intros Hc. unfold parse_hex4.
  rewrite !hex_value_digit by (apply N.mod_lt; discriminate).
  cbn [mbind option_bind]. f_equal.
  zify. Z.to_euclidean_division_equations. lia.
Qed.

Lemma parse_chars_plain (c : N) (r : jsstring) :
  c ≠ 34 → c ≠ 92 → 32 ≤ c →
  parse_chars (c :: r) = '(str, rest) ← parse_chars r; Some (c :: str, rest).
Proof.
  intros H34 H92 H32. cbn [parse_chars].
  apply N.eqb_neq in H34 as ->. apply N.eqb_neq in H92 as ->.
  apply N.ltb_ge in H32 as ->. reflexivity.
Qed.

Lemma parse_chars_short (e u : N) (r : jsstring) :
  e ≠ 117 → unescape e = Some u →
  parse_chars (92 :: e :: r) = '(str, rest) ← parse_chars r; Some (u :: str, rest).
Proof.
  intros He Hu. cbn [parse_chars]. change (92 =? 34) with false. change (92 =? 92) with true.
  cbv iota. apply N.eqb_neq in He as ->. by rewrite Hu.
Qed.

Lemma parse_chars_unicode_escape (c : N) (r : jsstring) :
  c < 65536 →
  parse_chars (unicode_escape c ++ r) = '(str, rest) ← parse_chars r; Some (c :: str, rest).
Proof.
  intros Hc. unfold unicode_escape, hex4. change (lit "\u") with [92; 117].
  cbn [app parse_chars]. change (92 =? 34) with false. change (92 =? 92) with true.
  change (117 =? 117) with true. cbv iota.
  by rewrite (parse_hex4_hex4 c Hc).
Qed.

(** Reading back what [QuoteJSONString] wrote, up to the closing quote. *)
Lemma parse_chars_quote_chars (t s : jsstring) :
  parse_chars (quote_chars s ++ quot ++ t) = Some (s, t).
Proof.
  remember (length s) as n eqn:Hn. revert s Hn.
  induction n as [n IH] using lt_wf_ind. intros [|c s] Hn; [reflexivity|].
  cbn [length] in Hn.
  assert (IHs : parse_chars (quote_chars s ++ quot ++ t) = Some (s, t))
    by (apply (IH (length s)); [lia | reflexivity]).
  cbn [quote_chars].
  case_eqb c 8.
  { change (lit "\b") with [92; 98]. cbn [app].
    rewrite (parse_chars_short 98 8) by done. by rewrite IHs. }
  case_eqb c 9.
  { change (lit "\t") with [92; 116]. cbn [app].
    rewrite (parse_chars_short 116 9) by done. by rewrite IHs. }
  case_eqb c 10.
  { change (lit "\n") with [92; 110]. cbn [app].
    rewrite (parse_chars_short 110 10) by done. by rewrite IHs. }
  case_eqb c 12.
  { change (lit "\f") with [92; 102]. cbn [app].
    rewrite (parse_chars_short 102 12) by done. by rewrite IHs. }
  case_eqb c 13.
  { change (lit "\r") with [92; 114]. cbn [app].
    rewrite (parse_chars_short 114 13) by done. by rewrite IHs. }
  case_eqb c 34.
  { cbn [app]. rewrite (parse_chars_short 34 34) by done. by rewrite IHs. }
  case_eqb c 92.
  { cbn [app]. rewrite (parse_chars_short 92 92) by done. by rewrite IHs. }
  destruct (N.ltb_spec c 32) as [Hlow|Hlow].
  { rewrite <- app_assoc, parse_chars_unicode_escape by lia. by rewrite IHs. }
  unfold is_leading_surrogate, is_trailing_surrogate.
  destruct (N.leb_spec 55296 c) as [Hc1|Hc1]; cbn [andb].
  - destruct (N.leb_spec c 56319) as [Hc2|Hc2].
    + destruct s as [|d s].
      * rewrite parse_chars_unicode_escape by lia. reflexivity.
      * destruct (N.leb_spec 56320 d) as [Hd1|Hd1]; cbn [andb];
          [destruct (N.leb_spec d 57343) as [Hd2|Hd2]|].
        -- cbn [app]. rewrite !parse_chars_plain by lia.
           rewrite (IH (length s)); [reflexivity | cbn [length] in Hn; lia | reflexivity].
        -- rewrite <- app_assoc, parse_chars_unicode_escape by lia. by rewrite IHs.
        -- rewrite <- app_assoc, parse_chars_unicode_escape by lia. by rewrite IHs.
    + destruct (N.leb_spec 56320 c) as [Hc3|Hc3]; cbn [andb];
        [destruct (N.leb_spec c 57343) as [Hc4|Hc4]|].
      * rewrite <- app_assoc, parse_chars_unicode_escape by lia. by rewrite IHs.
      * cbn [app]. rewrite parse_chars_plain by lia. by rewrite IHs.
      * lia.
  - destruct (N.leb_spec 56320 c) as [Hc3|Hc3]; [lia|]. cbn [andb app].
    rewrite parse_chars_plain by lia. by rewrite IHs.
Qed.

Lemma QuoteJSONString_app (s t : jsstring) :
  QuoteJSONString s ++ t = 34 :: quote_chars s ++ quot ++ t.
Proof. unfold QuoteJSONString. by rewrite <- !app_assoc. Qed.

(** *** The fuel of the parser

    A parse that succeeds with some fuel succeeds with the fuel [JSON_parse]
    gives: the bound never makes a text unparsable. *)

Lemma length_skip_ws (s : jsstring) : (length (skip_ws s) <= length s)%nat.
Proof.
  induction s as [|c s IH]; cbn [skip_ws length]; [lia|].
  destruct (is_json_space c); cbn [length]; lia.
Qed.

Lemma length_strip_prefix (p s r : jsstring) :
  strip_prefix p s = Some r → (length s = length p + length r)%nat.
Proof. intros H. apply strip_prefix_Some in H as ->. apply length_app. Qed.

Lemma length_parse_chars (s str rest : jsstring) :
  parse_chars s = Some (str, rest) → (length rest < length s)%nat.
Proof.
  remember (length s) as n eqn:Hn. revert s str rest Hn.
  induction n as [n IH] using lt_wf_ind. intros [|c s] str rest Hn; [discriminate|].
  cbn [parse_chars length] in *.
  destruct (c =? 34); [intros [= <- <-]; lia|].
  destruct (c =? 92).
  - destruct s as [|e s]; [discriminate|]. cbn [length] in *.
    destruct (e =? 117).
    + destruct s as [|h3 [|h2 [|h1 [|h0 s]]]]; try discriminate. cbn [length] in *.
      destruct (parse_hex4 h3 h2 h1 h0); [|discriminate]. cbn [mbind option_bind].
      destruct (parse_chars s) as [[str' rest']|] eqn:Hs; [|discriminate].
      cbn [mbind option_bind]. intros [= <- <-].
      apply (IH (length s)) in Hs; [lia | lia | reflexivity].
    + destruct (unescape e); [|discriminate]. cbn [mbind option_bind].
      destruct (parse_chars s) as [[str' rest']|] eqn:Hs; [|discriminate].
      cbn [mbind option_bind]. intros [= <- <-].
      apply (IH (length s)) in Hs; [lia | lia | reflexivity].
  - destruct (c <? 32); [discriminate|].
    destruct (parse_chars s) as [[str' rest']|] eqn:Hs; [|discriminate].
    cbn [mbind option_bind]. intros [= <- <-].
    apply (IH (length s)) in Hs; [lia | lia | reflexivity].
Qed.

Lemma length_span_digits (s : jsstring) :
  (length (snd (span_digits s)) <= length s)%nat.
Proof.
  induction s as [|c s IH]; cbn [span_digits snd length]; [lia|].
  destruct (is_digit c); [|cbn [snd length]; lia].
  destruct (span_digits s). cbn [snd] in *. lia.
Qed.

Lemma length_lex_number (s lexeme rest : jsstring) :
  lex_number s = Some (lexeme, rest) → (length rest < length s)%nat.
Proof.
  unfold lex_number.
  set (sign := match s with
               | c :: r => if c =? 45 then ([c], r) else ([], s)
               | [] => ([], s)
               end).
  assert (Hsign : (length (snd sign) <= length s)%nat).
  { subst sign. destruct s as [|c r]; [cbn; lia|].
    destruct (c =? 45); cbn [snd length]; lia. }
  destruct sign as [minus s0]. cbn [snd] in Hsign.
  destruct (lex_int s0) as [[i s1]|] eqn:Hint; [|discriminate]. cbn [mbind option_bind].
  assert (H1 : (length s1 < length s0)%nat).
  { revert Hint. unfold lex_int. destruct s0 as [|c r]; [discriminate|].
    destruct (c =? 48); [intros [= <- <-]; cbn [length]; lia|].
    destruct (is_digit c); [|discriminate].
    pose proof (length_span_digits r) as Hr. destruct (span_digits r).
    intros [= <- <-]. cbn [snd length] in *. lia. }
  destruct (lex_frac s1) as [[f s2]|] eqn:Hfrac; [|discriminate]. cbn [mbind option_bind].
  assert (H2 : (length s2 <= length s1)%nat).
  { revert Hfrac. unfold lex_frac. destruct s1 as [|c r]; [intros [= <- <-]; lia|].
    destruct (c =? 46); [|intros [= <- <-]; lia].
    pose proof (length_span_digits r) as Hr. destruct (span_digits r) as [[|d ds] r'];
      [discriminate|]. intros [= <- <-]. cbn [snd length] in *. lia. }
  destruct (lex_exp s2) as [[e s3]|] eqn:Hexp; [|discriminate]. cbn [mbind option_bind].
  assert (H3 : (length s3 <= length s2)%nat).
  { revert Hexp. unfold lex_exp. destruct s2 as [|c r]; [intros [= <- <-]; lia|].
    destruct ((c =? 101) || (c =? 69)); [|intros [= <- <-]; lia].
    set (sg := match r with
               | d :: r' => if (d =? 43) || (d =? 45) then ([d], r') else ([], r)
               | [] => ([], r)
               end).
    assert (Hsg : (length (snd sg) <= length r)%nat).
    { subst sg. destruct r as [|d r']; [cbn; lia|].
      destruct ((d =? 43) || (d =? 45)); cbn [snd length]; lia. }
    destruct sg as [sg r1]. cbn [snd] in Hsg.
    pose proof (length_span_digits r1) as Hr. destruct (span_digits r1) as [[|d ds] r'];
      [discriminate|]. intros [= <- <-]. cbn [snd length] in *. lia. }
  intros [= <- <-]. lia.
Qed.

Ltac skip_ws_cases s c t Hs Hws :=
  pose proof (length_skip_ws s) as Hws;
  destruct (skip_ws s) as [|c t] eqn:Hs; [discriminate|];
  cbn [length] in Hws.

Lemma parse_fuel (f : nat) :
  (∀ s v r, parse_value f s = Some (v, r) →
     (length r < length s)%nat ∧
     ∀ f', (2 * length s <= f' + 2 * length r)%nat → parse_value f' s = Some (v, r)) ∧
  (∀ s vs r, parse_elements f s = Some (vs, r) →
     (length r < length s)%nat ∧
     ∀ f', (2 * length s + 1 <= f' + 2 * length r)%nat →
           parse_elements f' s = Some (vs, r)) ∧
  (∀ s ms r, parse_members f s = Some (ms, r) →
     (length r < length s)%nat ∧
     ∀ f', (2 * length s + 1 <= f' + 2 * length r)%nat →
           parse_members f' s = Some (ms, r)).
Proof.
  induction f as [|f (IHv & IHe & IHm)]; [repeat split; discriminate|].
  split; [|split].
  - (* parse_value *)
    intros s v r H. cbn [parse_value] in H.
    skip_ws_cases s c t Hs Hws.
    destruct (c =? 34) eqn:E34.
    { destruct (parse_chars t) as [[str rest]|] eqn:Hp; [|discriminate].
      cbn [mbind option_bind] in H. injection H as <- <-.
      pose proof (length_parse_chars _ _ _ Hp) as Hlen.
      split; [lia|]. intros [|f'] Hb; [lia|].
      cbn [parse_value]. by rewrite Hs, E34, Hp. }
    destruct (c =? 91) eqn:E91.
    { skip_ws_cases t d t' Ht Hwt.
      destruct (d =? 93) eqn:E93.
      - injection H as <- <-. split; [lia|]. intros [|f'] Hb; [lia|].
        cbn [parse_value]. by rewrite Hs, E34, E91, Ht, E93.
      - destruct (parse_elements f t) as [[vs rest]|] eqn:He; [|discriminate].
        cbn [mbind option_bind] in H. injection H as <- <-.
        destruct (IHe _ _ _ He) as [Hlen Hfuel].
        split; [lia|]. intros [|f'] Hb; [lia|].
        cbn [parse_value]. rewrite Hs, E34, E91, Ht, E93, (Hfuel f') by lia.
        reflexivity. }
    destruct (c =? 123) eqn:E123.
    { skip_ws_cases t d t' Ht Hwt.
      destruct (d =? 125) eqn:E125.
      - injection H as <- <-. split; [lia|]. intros [|f'] Hb; [lia|].
        cbn [parse_value]. by rewrite Hs, E34, E91, E123, Ht, E125.
      - destruct (parse_members f t) as [[ms rest]|] eqn:He; [|discriminate].
        cbn [mbind option_bind] in H. injection H as <- <-.
        destruct (IHm _ _ _ He) as [Hlen Hfuel].
        split; [lia|]. intros [|f'] Hb; [lia|].
        cbn [parse_value]. rewrite Hs, E34, E91, E123, Ht, E125, (Hfuel f') by lia.
        reflexivity. }
    assert (Hr : (length r < length (c :: t))%nat).
    { destruct (strip_prefix (lit "true") (c :: t)) as [r1|] eqn:H1.
      { injection H as <- <-. apply length_strip_prefix in H1. rewrite H1.
        cbn [lit length map list_ascii_of_string]. lia. }
      destruct (strip_prefix (lit "false") (c :: t)) as [r2|] eqn:H2.
      { injection H as <- <-. apply length_strip_prefix in H2. rewrite H2.
        cbn [lit length map list_ascii_of_string]. lia. }
      destruct (strip_prefix (lit "null") (c :: t)) as [r3|] eqn:H3.
      { injection H as <- <-. apply length_strip_prefix in H3. rewrite H3.
        cbn [lit length map list_ascii_of_string]. lia. }
      destruct (lex_number (c :: t)) as [[lexeme rest]|] eqn:Hn; [|discriminate].
      cbn [mbind option_bind] in H. injection H as <- <-.
      by apply length_lex_number in Hn. }
    cbn [length] in Hr. split; [lia|]. intros [|f'] Hb; [lia|].
    cbn [parse_value]. by rewrite Hs, E34, E91, E123.
  - (* parse_elements *)
    intros s vs r H. cbn [parse_elements] in H.
    destruct (parse_value f s) as [[v r0]|] eqn:Hv; [|discriminate].
    cbn [mbind option_bind] in H.
    destruct (IHv _ _ _ Hv) as [Hlen Hfuel].
    skip_ws_cases r0 c t Hs Hws.
    destruct (c =? 44) eqn:E44.
    { destruct (parse_elements f t) as [[vs' rest]|] eqn:He; [|discriminate].
      cbn [mbind option_bind] in H. injection H as <- <-.
      destruct (IHe _ _ _ He) as [Hlen' Hfuel'].
      split; [lia|]. intros [|f'] Hb; [lia|].
      cbn [parse_elements]. rewrite (Hfuel f') by lia. cbn [mbind option_bind].
      rewrite Hs, E44, (Hfuel' f') by lia. reflexivity. }
    destruct (c =? 93) eqn:E93; [|discriminate].
    injection H as <- <-. split; [lia|]. intros [|f'] Hb; [lia|].
    cbn [parse_elements]. rewrite (Hfuel f') by lia. cbn [mbind option_bind].
    by rewrite Hs, E44, E93.
  - (* parse_members *)
    intros s ms r H. cbn [parse_members] in H.
    skip_ws_cases s q r0 Hs Hws.
    destruct (q =? 34) eqn:E34; [|discriminate].
    destruct (parse_chars r0) as [[k r1]|] eqn:Hk; [|discriminate].
    cbn [mbind option_bind] in H.
    pose proof (length_parse_chars _ _ _ Hk) as Hlenk.
    skip_ws_cases r1 c r2 Hs1 Hws1.
    destruct (c =? 58) eqn:E58; [|discriminate].
    destruct (parse_value f r2) as [[v r3]|] eqn:Hv; [|discriminate].
    cbn [mbind option_bind] in H.
    destruct (IHv _ _ _ Hv) as [Hlen Hfuel].
    skip_ws_cases r3 d r4 Hs3 Hws3.
    destruct (d =? 44) eqn:E44.
    { destruct (parse_members f r4) as [[ms' rest]|] eqn:He; [|discriminate].
      cbn [mbind option_bind] in H. injection H as <- <-.
      destruct (IHm _ _ _ He) as [Hlen' Hfuel'].
      split; [lia|]. intros [|f'] Hb; [lia|].
      cbn [parse_members]. rewrite Hs, E34, Hk. cbn [mbind option_bind].
      rewrite Hs1, E58, (Hfuel f') by lia. cbn [mbind option_bind].
      rewrite Hs3, E44, (Hfuel' f') by lia. reflexivity. }
    destruct (d =? 125) eqn:E125; [|discriminate].
    injection H as <- <-. split; [lia|]. intros [|f'] Hb; [lia|].
    cbn [parse_members]. rewrite Hs, E34, Hk. cbn [mbind option_bind].
    rewrite Hs1, E58, (Hfuel f') by lia. cbn [mbind option_bind].
    by rewrite Hs3, E44, E125.
Qed.

(** Whatever fuel a parse succeeds with, the fuel of [JSON_parse] gives the
    same result. *)
Lemma parse_value_enough_fuel (fuel : nat) (text : jsstring) (v : jsval) (rest : jsstring) :
  parse_value fuel text = Some (v, rest) →
  parse_value (2 * length text + 2) text = Some (v, rest).
Proof.
  intros H. destruct (parse_fuel fuel) as (Hv & _ & _).
  destruct (Hv _ _ _ H) as [_ Hfuel]. apply Hfuel. lia.
Qed.

(** So a text [JSON_parse] rejects is one that no amount of fuel parses as
    a single value. *)
Lemma JSON_parse_None (text : jsstring) :
  JSON_parse text = None →
  ∀ fuel v rest, parse_value fuel text = Some (v, rest) → skip_ws rest ≠ [].
Proof.
  unfold JSON_parse. intros Hnone fuel v rest H.
  rewrite (parse_value_enough_fuel _ _ _ _ H) in Hnone. cbn [mbind option_bind] in Hnone.
  by destruct (skip_ws rest).
Qed.


(** *** [loadHistory] *)

(** C6: whatever the storage holds under the key, [loadHistory] completes
    without throwing and without changing the page; it gives the empty
    array when nothing is stored and when what is stored does not parse as
    JSON. *)
Theorem loadHistory_fails_soft (p : page) :
  ∃ v, loadHistory p = (Ok v, p) ∧
       (localStorage p !! cute_chat_history = None → v = JArr []) ∧
       (∀ text, localStorage p !! cute_chat_history = Some text →
                JSON_parse text = None → v = JArr []).
Proof.
  unfold loadHistory, bind, getItem.
  destruct (localStorage p !! cute_chat_history) as [[|c text]|] eqn:Hraw.
  - exists (JArr []). repeat split; auto.
  - destruct (JSON_parse (c :: text)) as [v|] eqn:Hparse.
    + exists v. repeat split; [discriminate|].
      intros text' [= <-] Hnone. congruence.
    + exists (JArr []). repeat split; auto.
  - exists (JArr []). repeat split; auto.
Qed.

(** *** JSON text of a history *)

Lemma SerializeJSONProperty_message (m : Message) :
  SerializeJSONProperty (to_js m) = Some (message_text m).
Proof.
  unfold to_js, message_text.
  cbn [SerializeJSONProperty omap list_omap fst snd join_comma].
  rewrite <- !app_assoc. reflexivity.
Qed.

Lemma SerializeJSONProperty_history (history : list Message) :
  SerializeJSONProperty (JArr (map to_js history)) = Some (history_text history).
Proof.
  cbn [SerializeJSONProperty]. unfold history_text. do 3 f_equal.
  rewrite map_map. f_equal. apply map_ext. intros m.
  by rewrite SerializeJSONProperty_message.
Qed.

Lemma parse_value_string (fuel : nat) (s t : jsstring) :
  parse_value (S fuel) (QuoteJSONString s ++ t) = Some (JStr s, t).
Proof.
  rewrite QuoteJSONString_app. cbn [parse_value skip_ws].
  change (is_json_space 34) with false. cbv iota. change (34 =? 34) with true. cbv iota.
  by rewrite parse_chars_quote_chars.
Qed.

Lemma skip_ws_head (c : N) (r : jsstring) :
  is_json_space c = false → skip_ws (c :: r) = c :: r.
Proof. intros H. cbn [skip_ws]. by rewrite H. Qed.

(** An object whose first member follows the brace at once. *)
Lemma parse_value_object (fuel : nat) (r : jsstring) :
  parse_value (S fuel) (123 :: 34 :: r) =
  '(ms, rest) ← parse_members fuel (34 :: r); Some (obj_of_members ms, rest).
Proof.
  cbn [parse_value]. rewrite !skip_ws_head by reflexivity. eval_tests. reflexivity.
Qed.

(** A member whose value is a string, written without spaces, before a
    comma and before the closing brace. *)
Lemma parse_members_string_more (fuel : nat) (k s r : jsstring) :
  parse_members (S (S fuel)) (34 :: quote_chars k ++ quot ++ 58 :: QuoteJSONString s ++ 44 :: r) =
  '(ms, rest) ← parse_members (S fuel) r; Some ((k, JStr s) :: ms, rest).
Proof.
  cbn [parse_members]. rewrite skip_ws_head by reflexivity. eval_tests.
  rewrite parse_chars_quote_chars. cbn [mbind option_bind].
  rewrite skip_ws_head by reflexivity. eval_tests.
  rewrite parse_value_string. cbn [mbind option_bind].
  rewrite skip_ws_head by reflexivity. eval_tests. reflexivity.
Qed.

Lemma parse_members_string_last (fuel : nat) (k s r : jsstring) :
  parse_members (S (S fuel)) (34 :: quote_chars k ++ quot ++ 58 :: QuoteJSONString s ++ 125 :: r) =
  Some ([(k, JStr s)], r).
Proof.
  cbn [parse_members]. rewrite skip_ws_head by reflexivity. eval_tests.
  rewrite parse_chars_quote_chars. cbn [mbind option_bind].
  rewrite skip_ws_head by reflexivity. eval_tests.
  rewrite parse_value_string. cbn [mbind option_bind].
  rewrite skip_ws_head by reflexivity. eval_tests. reflexivity.
Qed.

Lemma message_text_app (m : Message) (t : jsstring) :
  message_text m ++ t =
  123 :: 34 :: quote_chars (lit "role") ++ quot ++
  58 :: QuoteJSONString (msg_role m) ++
  44 :: 34 :: quote_chars (lit "content") ++ quot ++
  58 :: QuoteJSONString (msg_content m) ++ 125 :: t.
Proof.
  unfold message_text. rewrite <- !app_assoc.
  rewrite !(QuoteJSONString_app (lit _)). reflexivity.
Qed.

Lemma parse_value_message (fuel : nat) (m : Message) (t : jsstring) :
  parse_value (S (S (S (S fuel)))) (message_text m ++ t) = Some (to_js m, t).
Proof.
  rewrite message_text_app, parse_value_object, parse_members_string_more,
    parse_members_string_last.
  reflexivity.
Qed.

Lemma join_comma_cons (x y : jsstring) (rest : list jsstring) :
  join_comma (x :: y :: rest) = x ++ 44 :: join_comma (y :: rest).
Proof. reflexivity. Qed.

(** The elements of a history that is not empty, up to the closing
    bracket. *)
Lemma parse_elements_history (t : jsstring) (history : list Message) :
  ∀ (m : Message) (extra : nat),
    parse_elements (length history + 5 + extra)
      (join_comma (map message_text (m :: history)) ++ 93 :: t) =
    Some (map to_js (m :: history), t).
Proof.
  induction history as [|m' history IH]; intros m extra.
  - cbn [length map join_comma Nat.add parse_elements].
    rewrite parse_value_message. cbn [mbind option_bind].
    rewrite skip_ws_head by reflexivity. eval_tests. reflexivity.
  - cbn [map]. rewrite join_comma_cons, <- app_assoc. cbn [length Nat.add parse_elements].
    replace (length history + 5 + extra)%nat
      with (S (S (S (S (length history + 1 + extra))))) at 1 by lia.
    rewrite parse_value_message. cbn [mbind option_bind app].
    rewrite skip_ws_head by reflexivity. eval_tests.
    change (message_text m' :: map message_text history)
      with (map message_text (m' :: history)).
    rewrite IH. reflexivity.
Qed.

Lemma parse_value_history (t : jsstring) (history : list Message) (extra : nat) :
  parse_value (length history + 5 + extra) (history_text history ++ t) =
  Some (JArr (map to_js history), t).
Proof.
  unfold history_text. rewrite <- !app_assoc. change (lit "[") with [91].
  change (lit "]" ++ t) with (93 :: t).
  destruct history as [|m history].
  - cbn [length map join_comma Nat.add app parse_value].
    rewrite !skip_ws_head by reflexivity. eval_tests. reflexivity.
  - cbn [length Nat.add app parse_value].
    rewrite skip_ws_head by reflexivity. eval_tests.
    assert (Hopen : ∃ r, join_comma (map message_text (m :: history)) ++ 93 :: t = 123 :: r).
    { destruct history; cbn [map]; [cbn [join_comma]|rewrite join_comma_cons, <- app_assoc];
        rewrite message_text_app; eauto. }
    destruct Hopen as [r Hopen]. rewrite Hopen.
    rewrite skip_ws_head by reflexivity. eval_tests. rewrite <- Hopen.
    rewrite parse_elements_history. reflexivity.
Qed.

Lemma length_join_comma (history : list Message) :
  (length history <= length (join_comma (map message_text history)))%nat.
Proof.
  induction history as [|m [|m' history] IH]; cbn [map length]; [lia| |].
  - cbn [join_comma]. unfold message_text. rewrite length_app. cbn [lit length map list_ascii_of_string]. lia.
  - rewrite join_comma_cons, length_app. cbn [length map] in *. lia.
Qed.

(** [JSON.parse] reads back the text [JSON.stringify] gives for a history. *)
Lemma JSON_parse_history (history : list Message) :
  JSON_parse (history_text history) = Some (JArr (map to_js history)).
Proof.
  unfold JSON_parse.
  assert (Hfuel : ∃ extra, (2 * length (history_text history) + 2 =
                            length history + 5 + extra)%nat).
  { exists (2 * length (history_text history) + 2 - (length history + 5))%nat.
    pose proof (length_join_comma history) as Hlen.
    unfold history_text. rewrite !length_app. cbn [lit length map list_ascii_of_string]. lia. }
  destruct Hfuel as [extra ->].
  rewrite <- (app_nil_r (history_text history)) at 1.
  rewrite parse_value_history. reflexivity.
Qed.

Lemma JSON_stringify_history (history : list Message) :
  JSON_stringify (JArr (map to_js history)) = Some (history_text history).
Proof. apply SerializeJSONProperty_history. Qed.

(** C5: what [saveHistory] stores for a history of Messages, [loadHistory]
    reads back as the same Messages in the same order; and with nothing
    stored under the key [loadHistory] gives the empty array. *)
Theorem loadHistory_saveHistory (history : list Message) (p : page) :
  fst (loadHistory (snd (saveHistory (JArr (map to_js history)) p))) =
    Ok (JArr (map to_js history)) ∧
  (localStorage p !! cute_chat_history = None → fst (loadHistory p) = Ok (JArr [])).
Proof.
  split.
  - unfold saveHistory, setItem, loadHistory, bind, getItem.
    cbn [snd fst localStorage]. rewrite lookup_insert_eq, JSON_stringify_history.
    cbn [default from_option id].
    pose proof (JSON_parse_history history) as Hparse.
    destruct (history_text history) as [|c text] eqn:Htext; [discriminate Htext|].
    by rewrite Hparse.
  - intros Hnone. unfold loadHistory, bind, getItem. by rewrite Hnone.
Qed.


(** *** What [sendMessage] posts *)

Lemma posted_saveHistory (history : jsval) (p : page) :
  posted (snd (saveHistory history p)) = posted p.
Proof. reflexivity. Qed.

Lemma posted_forEach_render (elems : list jsval) (p : page) :
  posted (snd (forEach_render elems p)) = posted p.
Proof.
  revert p. induction elems as [|m elems IH]; intros p; cbn [forEach_render]; [reflexivity|].
  unfold bind, lift, appendChild. destruct (render_message m); [|reflexivity].
  by rewrite IH.
Qed.

Lemma posted_renderMessages (history : jsval) (p : page) :
  posted (snd (renderMessages history p)) = posted p.
Proof.
  unfold renderMessages, bind, clear_messagesEl.
  destruct history; try reflexivity. by rewrite posted_forEach_render.
Qed.

Lemma posted_save_render (history : jsval) (p : page) :
  posted (snd ((let* _ := saveHistory history in renderMessages history) p)) = posted p.
Proof.
  unfold bind. cbn [saveHistory setItem]. by rewrite posted_renderMessages.
Qed.

Lemma posted_catch_block (err : jserror) (history : list jsval) (p : page) :
  posted (snd (catch_block err history p)) = posted p.
Proof. unfold catch_block. apply posted_save_render. Qed.

Lemma posted_try_block (history kept : list jsval) (p : page) :
  filter_content_not_ellipsis history = Ok kept →
  posted (snd (try_block history p)) =
  posted p ++ [default (lit "undefined")
                 (JSON_stringify (JObj [(lit "messages", JArr kept)]))].
Proof.
  intros Hkept. unfold try_block. rewrite Hkept. unfold post.
  destruct (fetch _) as [ok statusText json|e]; [|reflexivity].
  destruct ok; [|reflexivity]. cbn [negb].
  destruct json as [data|e]; [|reflexivity].
  destruct (get_prop data "reply") as [reply|e]; [|reflexivity].
  match goal with
  | |- context [(let* _ := saveHistory ?h in renderMessages ?h) ?q] =>
      pose proof (posted_save_render h q) as Hposted;
      destruct ((let* _ := saveHistory h in renderMessages h) q) as [r p2]
  end.
  exact Hposted.
Qed.

Lemma get_prop_content (m : Message) :
  get_prop (to_js m) "content" = Ok (JStr (msg_content m)).
Proof.
  unfold to_js. cbn [get_prop own_property].
  replace (bool_decide (lit "role" = lit "content")) with false by reflexivity.
  replace (bool_decide (lit "content" = lit "content")) with true by reflexivity.
  reflexivity.
Qed.

Lemma filter_content_not_ellipsis_messages (history : list Message) :
  filter_content_not_ellipsis (map to_js history) =
  Ok (map to_js (List.filter content_not_ellipsis history)).
Proof.
  induction history as [|m history IH]; [reflexivity|].
  cbn [map filter_content_not_ellipsis List.filter].
  rewrite get_prop_content, IH. unfold content_not_ellipsis, strict_eq_string.
  by destruct (bool_decide (msg_content m = ellipsis)).
Qed.

Lemma SerializeJSONProperty_singleton (k : jsstring) (v : jsval) (t : jsstring) :
  SerializeJSONProperty v = Some t →
  SerializeJSONProperty (JObj [(k, v)]) =
  Some (lit "{" ++ (QuoteJSONString k ++ lit ":" ++ t) ++ lit "}").
Proof.
  intros Hv. cbn [SerializeJSONProperty omap list_omap fst snd].
  by rewrite Hv.
Qed.

Lemma JSON_stringify_request (kept : list Message) :
  default (lit "undefined")
    (JSON_stringify (JObj [(lit "messages", JArr (map to_js kept))])) =
  request_text kept.
Proof.
  unfold JSON_stringify.
  rewrite (SerializeJSONProperty_singleton _ _ _ (SerializeJSONProperty_history kept)).
  cbn [default from_option id]. unfold request_text.
  by rewrite <- !app_assoc.
Qed.

(** With a history of Messages in storage and an input that is not blank,
    [sendMessage] posts once, and the body holds the Messages of the history
    and the new user Message whose content is not the ellipsis. *)
Lemma sendMessage_posted (history : list Message) (p : page) (c : N) (raw : jsstring) :
  trim (inputEl_value p) = c :: raw →
  fst (loadHistory p) = Ok (JArr (map to_js history)) →
  posted (snd (sendMessage p)) =
  posted p ++
  [request_text (List.filter content_not_ellipsis
                   (history ++ [Build_Message (lit "user") (c :: raw)]))].
Proof.
  intros Hraw Hload. unfold sendMessage.
  unfold bind at 1. unfold get_inputEl_value. rewrite Hraw.
  unfold bind at 1. unfold set_inputEl_value.
  set (p1 := Page (localStorage p) [] (messagesEl p) (posted p)).
  assert (Hload1 : loadHistory p1 = (Ok (JArr (map to_js history)), p1)).
  { revert Hload. unfold loadHistory, bind, getItem. subst p1. cbn [localStorage].
    destruct (localStorage p !! cute_chat_history) as [[|c' text]|];
      [|destruct (JSON_parse (c' :: text))|];
      unfold ret; cbn [fst]; intros [= Heq]; by rewrite <- Heq. }
  unfold bind at 1. rewrite Hload1.
  unfold bind at 1. unfold lift, push.
  change (message "user" (JStr (c :: raw)))
    with (to_js (Build_Message (lit "user") (c :: raw))).
  set (user := Build_Message (lit "user") (c :: raw)).
  change (map to_js history ++ [to_js user]) with (map to_js history ++ map to_js [user]).
  rewrite <- map_app.
  unfold bind at 1. rewrite renderMessages_messages.
  unfold bind at 1. unfold saveHistory at 1, setItem.
  change typingPlaceholder with (to_js (Build_Message (lit "assistant") ellipsis)).
  set (placeholder := Build_Message (lit "assistant") ellipsis).
  change (map to_js (history ++ [user]) ++ [to_js placeholder])
    with (map to_js (history ++ [user]) ++ map to_js [placeholder]).
  rewrite <- map_app.
  unfold bind at 1. rewrite renderMessages_messages.
  match goal with
  | |- context [try_block ?h ?q] =>
      pose proof (posted_try_block h _ q (filter_content_not_ellipsis_messages _)) as Hposted;
      destruct (try_block h q) as [[[u|err] history'] p']
  end; cbn [snd] in Hposted |- *.
  all: rewrite ?posted_catch_block, Hposted; cbn [posted localStorage inputEl_value messagesEl];
    subst p1; cbn [posted]; rewrite JSON_stringify_request, List.filter_app;
    cbn [List.filter];
    replace (content_not_ellipsis placeholder) with false by reflexivity;
    by rewrite app_nil_r.
Qed.

(** C2 (where the code departs from it): with nothing stored and the
    ellipsis typed as the message, the body posted holds no Message at all:
    the user Message is filtered out together with the placeholder. *)
Theorem sendMessage_drops_ellipsis_message :
  posted (snd (sendMessage (Page ∅ ellipsis [] []))) =
  [lit "{" ++ quot ++ lit "messages" ++ quot ++ lit ":[]}"].
Proof.
  rewrite (sendMessage_posted [] (Page ∅ ellipsis [] []) 8230 []); reflexivity.
Qed.

Lemma filter_content_not_ellipsis_all (history : list Message) :
  Forall (fun m => msg_content m ≠ ellipsis) history →
  List.filter content_not_ellipsis history = history.
Proof.
  induction 1 as [|m history Hm _ IH]; [reflexivity|].
  cbn [List.filter]. unfold content_not_ellipsis at 1.
  rewrite bool_decide_eq_false_2 by exact Hm. cbn [negb]. by rewrite IH.
Qed.

(** X11: where no content is the ellipsis, the body is the whole history with
    the new user Message, the placeholder alone being left out. *)
Lemma sendMessage_posted_all (history : list Message) (p : page) (c : N) (raw : jsstring) :
  trim (inputEl_value p) = c :: raw →
  fst (loadHistory p) = Ok (JArr (map to_js history)) →
  Forall (fun m => msg_content m ≠ ellipsis) history →
  c :: raw ≠ ellipsis →
  posted (snd (sendMessage p)) =
  posted p ++ [request_text (history ++ [Build_Message (lit "user") (c :: raw)])].
Proof.
  intros Hraw Hload Hhistory Huser.
  rewrite (sendMessage_posted history p c raw Hraw Hload).
  rewrite filter_content_not_ellipsis_all; [reflexivity|].
  apply Forall_app. split; [exact Hhistory|]. by repeat constructor.
Qed.



(** *** Stripping white space at both ends

    [trim] of the page and [strip] of the server are the same loop over two
    classes of characters. *)

Section Stripping.

Variable space : N → bool.
Variable strip_left : list N → list N.
Hypothesis strip_left_nil : strip_left [] = [].
Hypothesis strip_left_cons :
  ∀ c s, strip_left (c :: s) = if space c then strip_left s else c :: s.

Lemma strip_left_split (s : list N) :
  ∃ l, s = l ++ strip_left s ∧ Forall (fun c => space c = true) l.
Proof.
  induction s as [|c s (l & Hs & Hl)].
  - exists []. by rewrite strip_left_nil.
  - rewrite strip_left_cons. destruct (space c) eqn:Hc.
    + exists (c :: l). split; [cbn [app]; by rewrite <- Hs | by constructor].
    + by exists [].
Qed.

Lemma strip_left_head (s : list N) (c : N) (t : list N) :
  strip_left s = c :: t → space c = false.
Proof.
  induction s as [|d s IH]; [by rewrite strip_left_nil|].
  rewrite strip_left_cons. destruct (space d) eqn:Hd; [exact IH|].
  by intros [= <- _].
Qed.

Lemma strip_left_some (s : list N) :
  Exists (fun c => space c = false) s → strip_left s ≠ [].
Proof.
  induction 1 as [c s Hc|c s _ IH]; rewrite strip_left_cons.
  - by rewrite Hc.
  - by destruct (space c).
Qed.

(** The text is white space, what is kept, white space. *)
Lemma strip_both_split (s : list N) :
  ∃ l r, s = l ++ rev (strip_left (rev (strip_left s))) ++ r ∧
         Forall (fun c => space c = true) l ∧ Forall (fun c => space c = true) r.
Proof.
  destruct (strip_left_split s) as (l & Hs & Hl).
  destruct (strip_left_split (rev (strip_left s))) as (r & Hr & Hrs).
  exists l, (rev r). repeat split; [|exact Hl|by apply Forall_rev].
  rewrite <- rev_app_distr, <- Hr, rev_involutive. exact Hs.
Qed.

(** What is kept neither begins nor ends with white space. *)
Lemma strip_both_head (s : list N) (c : N) (t : list N) :
  rev (strip_left (rev (strip_left s))) = c :: t → space c = false.
Proof.
  intros H. destruct (strip_left_split (rev (strip_left s))) as (r & Hr & _).
  apply (f_equal (@rev N)) in H. rewrite rev_involutive in H. rewrite H in Hr.
  apply (f_equal (@rev N)) in Hr. rewrite rev_involutive, rev_app_distr, rev_involutive in Hr.
  cbn [app] in Hr. exact (strip_left_head _ _ _ Hr).
Qed.

Lemma strip_both_last (s t : list N) (c : N) :
  rev (strip_left (rev (strip_left s))) = t ++ [c] → space c = false.
Proof.
  intros H. apply (f_equal (@rev N)) in H. rewrite rev_involutive, rev_app_distr in H.
  cbn [rev app] in H. exact (strip_left_head _ _ _ H).
Qed.

Lemma strip_both_some (s : list N) :
  Exists (fun c => space c = false) s → rev (strip_left (rev (strip_left s))) ≠ [].
Proof.
  intros Hs Hnil. apply (f_equal (@rev N)) in Hnil. rewrite rev_involutive in Hnil.
  cbn [rev] in Hnil. revert Hnil. apply strip_left_some.
  destruct (strip_left s) as [|c t] eqn:Hleft; [by apply strip_left_some in Hs|].
  apply Exists_exists. exists c. split; [|exact (strip_left_head _ _ _ Hleft)].
  apply list_elem_of_In. rewrite <- in_rev. by left.
Qed.

End Stripping.

Lemma trimStart_cons (c : N) (s : jsstring) :
  trimStart (c :: s) = if is_js_whitespace c then trimStart s else c :: s.
Proof. reflexivity. Qed.


(** *** A whole turn of [sendMessage] *)

Lemma loadHistory_same_storage (p q : page) :
  localStorage q = localStorage p → fst (loadHistory q) = fst (loadHistory p).
Proof.
  intros Hq. unfold loadHistory, bind, getItem. rewrite Hq.
  destruct (localStorage p !! cute_chat_history) as [[|c text]|]; try reflexivity.
  by destruct (JSON_parse (c :: text)).
Qed.

Lemma loadHistory_page (p : page) : snd (loadHistory p) = p.
Proof.
  unfold loadHistory, bind, getItem.
  destruct (localStorage p !! cute_chat_history) as [[|c text]|]; try reflexivity.
  by destruct (JSON_parse (c :: text)).
Qed.

(** [sendMessage] up to [try]: the user Message is stored, and the history
    with the placeholder is on the screen. *)
Lemma sendMessage_before_try (history : list Message) (p : page) (c : N) (raw : jsstring) :
  trim (inputEl_value p) = c :: raw →
  fst (loadHistory p) = Ok (JArr (map to_js history)) →
  sendMessage p =
  match
    try_block
      (map to_js (history ++ [user_message (c :: raw); assistant_message ellipsis]))
      (Page (<[cute_chat_history := history_text (history ++ [user_message (c :: raw)])]>
               (localStorage p))
            []
            (map rendered (history ++ [user_message (c :: raw); assistant_message ellipsis]))
            (posted p))
  with
  | (Ok _, _, p') => (Ok tt, p')
  | (Raise err, history', p') => catch_block err history' p'
  end.
Proof.
  intros Hraw Hload. unfold sendMessage.
  unfold bind at 1. unfold get_inputEl_value. rewrite Hraw.
  unfold bind at 1. unfold set_inputEl_value.
  set (p1 := Page (localStorage p) [] (messagesEl p) (posted p)).
  assert (Hload1 : loadHistory p1 = (Ok (JArr (map to_js history)), p1)).
  { rewrite (surjective_pairing (loadHistory p1)), loadHistory_page.
    by rewrite (loadHistory_same_storage p p1), Hload. }
  unfold bind at 1. rewrite Hload1.
  unfold bind at 1. unfold lift, push.
  change (message "user" (JStr (c :: raw))) with (to_js (user_message (c :: raw))).
  change (map to_js history ++ [to_js (user_message (c :: raw))])
    with (map to_js history ++ map to_js [user_message (c :: raw)]).
  rewrite <- map_app.
  unfold bind at 1. rewrite renderMessages_messages.
  unfold bind at 1. unfold saveHistory at 1, setItem.
  rewrite JSON_stringify_history. cbn [default from_option id].
  change typingPlaceholder with (to_js (assistant_message ellipsis)).
  change (map to_js (history ++ [user_message (c :: raw)]) ++ [to_js (assistant_message ellipsis)])
    with (map to_js (history ++ [user_message (c :: raw)]) ++
          map to_js [assistant_message ellipsis]).
  rewrite <- map_app, <- app_assoc. cbn [app].
  unfold bind at 1. rewrite renderMessages_messages.
  subst p1. cbn [localStorage inputEl_value messagesEl posted]. reflexivity.
Qed.

Lemma filter_with_placeholder (history : list Message) (raw : jsstring) :
  filter_content_not_ellipsis
    (map to_js (history ++ [user_message raw; assistant_message ellipsis])) =
  Ok (map to_js (List.filter content_not_ellipsis (history ++ [user_message raw]))).
Proof.
  rewrite filter_content_not_ellipsis_messages.
  change (history ++ [user_message raw; assistant_message ellipsis])
    with (history ++ [user_message raw] ++ [assistant_message ellipsis]).
  rewrite app_assoc, List.filter_app. cbn [List.filter].
  replace (content_not_ellipsis (assistant_message ellipsis)) with false by reflexivity.
  by rewrite app_nil_r.
Qed.

Lemma removelast_snoc {A} (l : list A) (x : A) : removelast (l ++ [x]) = l.
Proof. apply removelast_last. Qed.

Lemma map_to_js_snoc (l : list Message) (m : Message) :
  map to_js l ++ [to_js m] = map to_js (l ++ [m]).
Proof. by rewrite map_app. Qed.

(** Storing and showing a history of Messages. *)
Lemma save_render_messages (final : list Message) (p : page) :
  (let* _ := saveHistory (JArr (map to_js final)) in
   renderMessages (JArr (map to_js final))) p =
  (Ok tt, Page (<[cute_chat_history := history_text final]> (localStorage p))
            (inputEl_value p) (map rendered final) (posted p)).
Proof.
  unfold bind. unfold saveHistory, setItem. rewrite JSON_stringify_history.
  cbn [default from_option id]. by rewrite renderMessages_messages.
Qed.

(** The block of [catch] after the placeholder or a reply was the last
    entry: that entry gives way to the error Message. *)
Lemma catch_block_messages (err : jserror) (kept : list Message) (last : jsval) (p : page) :
  catch_block err (map to_js kept ++ [last]) p =
  (Ok tt,
   Page (<[cute_chat_history :=
             history_text (kept ++ [assistant_message (lit "Error: " ++ err_message err)])]>
           (localStorage p))
        (inputEl_value p)
        (map rendered (kept ++ [assistant_message (lit "Error: " ++ err_message err)]))
        (posted p)).
Proof.
  unfold catch_block. rewrite removelast_snoc.
  change (message "assistant" (JStr (lit "Error: " ++ err_message err)))
    with (to_js (assistant_message (lit "Error: " ++ err_message err))).
  rewrite map_to_js_snoc. apply save_render_messages.
Qed.

(** An entry that cannot be rendered stops [renderMessages] there: the
    Messages before it are shown, the entries after it are not. *)
Lemma forEach_render_stops (before : list Message) (bad : jsval) (after : list jsval)
    (e : jserror) (p : page) :
  render_message bad = Raise e →
  forEach_render (map to_js before ++ bad :: after) p =
  (Raise e, Page (localStorage p) (inputEl_value p)
              (messagesEl p ++ map rendered before) (posted p)).
Proof.
  intros Hbad. revert p. induction before as [|m before IH]; intros p; cbn [map app forEach_render].
  - unfold bind, lift. rewrite Hbad, app_nil_r. by destruct p.
  - unfold bind at 1. unfold lift. rewrite render_message_to_js.
    unfold bind at 1. unfold appendChild. rewrite IH.
    cbn [localStorage inputEl_value messagesEl posted]. by rewrite <- app_assoc.
Qed.

Lemma renderMessages_bad_entry (before : list Message) (bad : jsval) (after : list jsval)
    (e : jserror) (p : page) :
  render_message bad = Raise e →
  renderMessages (JArr (map to_js before ++ bad :: after)) p =
  (Raise e, Page (localStorage p) (inputEl_value p) (map rendered before) (posted p)).
Proof.
  intros Hbad. unfold renderMessages, bind, clear_messagesEl.
  by rewrite (forEach_render_stops _ _ _ _ _ Hbad).
Qed.

(** X15: [renderMessages] on a history with an entry that cannot be rendered
    (null, or an entry whose content is no string) throws the error of that
    entry; the list then shows the Messages before it and nothing of what
    was shown earlier or comes after. *)
Theorem renderMessages_stops (before : list Message) (bad : jsval) (after : list jsval)
    (e : jserror) (p : page) :
  render_message bad = Raise e →
  renderMessages (JArr (map to_js before ++ bad :: after)) p =
  (Raise e, Page (localStorage p) (inputEl_value p) (map rendered before) (posted p)).
Proof. apply renderMessages_bad_entry. Qed.

Lemma try_block_posts (history : list Message) (raw : jsstring) (p : page) :
  try_block (map to_js (history ++ [user_message raw; assistant_message ellipsis])) p =
  let hist := map to_js (history ++ [user_message raw]) ++ [to_js (assistant_message ellipsis)] in
  let p1 := Page (localStorage p) (inputEl_value p) (messagesEl p)
                 (posted p ++ [turn_body history raw]) in
  match fetch (turn_body history raw) with
  | FetchRejects e => (Raise e, hist, p1)
  | FetchResolves ok statusText json =>
      if negb ok then (Raise (Error (lit "Server error: " ++ statusText)), hist, p1)
      else
        match json with
        | JsonRejects e => (Raise e, hist, p1)
        | JsonResolves data =>
            match get_prop data "reply" with
            | Raise e => (Raise e, map to_js (history ++ [user_message raw]), p1)
            | Ok reply =>
                let history2 :=
                  map to_js (history ++ [user_message raw]) ++ [message "assistant" reply] in
                let '(r, p2) :=
                  (let* _ := saveHistory (JArr history2) in
                   renderMessages (JArr history2)) p1 in
                (r, history2, p2)
            end
        end
  end.
Proof.
  unfold try_block. rewrite filter_with_placeholder, JSON_stringify_request.
  fold (turn_body history raw). unfold post.
  assert (Hhist : map to_js (history ++ [user_message raw; assistant_message ellipsis]) =
                  map to_js (history ++ [user_message raw]) ++ [to_js (assistant_message ellipsis)]).
  { rewrite map_to_js_snoc, <- app_assoc. reflexivity. }
  rewrite Hhist, removelast_snoc. cbv zeta.
  destruct (fetch (turn_body history raw)) as [ok statusText json|e]; [|reflexivity].
  destruct ok; [|reflexivity]. cbn [negb].
  destruct json as [data|e]; reflexivity.
Qed.

Lemma settled_eq (p : page) (final : list Message) (body : jsstring) (old : jsstring) :
  Page (<[cute_chat_history := history_text final]>
          (<[cute_chat_history := old]> (localStorage p)))
       [] (map rendered final) (posted p ++ [body]) =
  settled p final body.
Proof. unfold settled. by rewrite insert_insert_eq. Qed.

Section Turn.

Variable history : list Message.
Variable p : page.
Variable c : N.
Variable raw : jsstring.
Hypothesis Hraw : trim (inputEl_value p) = c :: raw.
Hypothesis Hload : fst (loadHistory p) = Ok (JArr (map to_js history)).

Lemma turn_reply (statusText : jsstring) (data : jsval) (reply : jsstring) :
  fetch (turn_body history (c :: raw)) = FetchResolves true statusText (JsonResolves data) →
  get_prop data "reply" = Ok (JStr reply) →
  sendMessage p =
  (Ok tt, settled p (history ++ [user_message (c :: raw); assistant_message reply])
            (turn_body history (c :: raw))).
Proof.
  intros Hfetch Hreply.
  rewrite (sendMessage_before_try history p c raw Hraw Hload), try_block_posts.
  cbv zeta. rewrite Hfetch. cbn [negb]. rewrite Hreply.
  change (message "assistant" (JStr reply)) with (to_js (assistant_message reply)).
  rewrite map_to_js_snoc, save_render_messages.
  cbn [localStorage inputEl_value messagesEl posted].
  rewrite settled_eq, <- app_assoc. reflexivity.
Qed.

Lemma turn_error (err : jserror) :
  response_error (fetch (turn_body history (c :: raw))) = Some err →
  sendMessage p =
  (Ok tt, settled p (history ++ [user_message (c :: raw);
                                 assistant_message (lit "Error: " ++ err_message err)])
            (turn_body history (c :: raw))).
Proof.
  intros Herr.
  rewrite (sendMessage_before_try history p c raw Hraw Hload), try_block_posts.
  cbv zeta.
  assert (Hcatch : ∀ e q,
    q = Page (<[cute_chat_history := history_text (history ++ [user_message (c :: raw)])]>
                (localStorage p)) []
             (map rendered (history ++ [user_message (c :: raw); assistant_message ellipsis]))
             (posted p ++ [turn_body history (c :: raw)]) →
    catch_block e (map to_js (history ++ [user_message (c :: raw)])
                   ++ [to_js (assistant_message ellipsis)]) q =
    (Ok tt, settled p (history ++ [user_message (c :: raw);
                                   assistant_message (lit "Error: " ++ err_message e)])
              (turn_body history (c :: raw)))).
  { intros e q ->. rewrite catch_block_messages.
    cbn [localStorage inputEl_value messagesEl posted].
    rewrite settled_eq, <- app_assoc. reflexivity. }
  destruct (fetch (turn_body history (c :: raw))) as [ok statusText json|e];
    cbn [response_error] in Herr.
  - destruct ok; cbn [negb].
    + destruct json as [data|e]; [discriminate|]. injection Herr as <-.
      by apply Hcatch.
    + injection Herr as <-. by apply Hcatch.
  - injection Herr as <-. by apply Hcatch.
Qed.

Lemma turn_reply_unreadable (statusText : jsstring) (data : jsval) (err : jserror) :
  fetch (turn_body history (c :: raw)) = FetchResolves true statusText (JsonResolves data) →
  get_prop data "reply" = Raise err →
  sendMessage p =
  (Ok tt, settled p (history ++ [assistant_message (lit "Error: " ++ err_message err)])
            (turn_body history (c :: raw))).
Proof.
  intros Hfetch Hreply.
  rewrite (sendMessage_before_try history p c raw Hraw Hload), try_block_posts.
  cbv zeta. rewrite Hfetch. cbn [negb]. rewrite Hreply.
  rewrite <- map_to_js_snoc, catch_block_messages.
  cbn [localStorage inputEl_value messagesEl posted].
  by rewrite settled_eq.
Qed.

Lemma turn_reply_not_string (statusText : jsstring) (data reply : jsval)
    (err : jserror) :
  fetch (turn_body history (c :: raw)) = FetchResolves true statusText (JsonResolves data) →
  get_prop data "reply" = Ok reply →
  escapeHtml reply = Raise err →
  sendMessage p =
  (Ok tt, settled p (history ++ [user_message (c :: raw);
                                 assistant_message (lit "Error: " ++ err_message err)])
            (turn_body history (c :: raw))).
Proof.
  intros Hfetch Hreply Hescape.
  rewrite (sendMessage_before_try history p c raw Hraw Hload), try_block_posts.
  cbv zeta. rewrite Hfetch. cbn [negb]. rewrite Hreply.
  assert (Hbad : render_message (message "assistant" reply) = Raise err).
  { unfold render_message, message. cbn [get_prop own_property].
    replace (bool_decide (lit "role" = lit "role")) with true by reflexivity.
    replace (bool_decide (lit "role" = lit "content")) with false by reflexivity.
    replace (bool_decide (lit "content" = lit "content")) with true by reflexivity.
    cbn [default from_option id]. by rewrite Hescape. }
  unfold bind at 1. unfold saveHistory at 1, setItem.
  rewrite (renderMessages_bad_entry _ _ [] _ _ Hbad).
  rewrite catch_block_messages.
  cbn [localStorage inputEl_value messagesEl posted].
  rewrite insert_insert_eq, settled_eq, <- app_assoc. reflexivity.
Qed.

End Turn.

(** X1: when the server answers with a string under [reply], the turn ends with
    the history longer by the user Message and the reply. *)
Theorem sendMessage_reply (history : list Message) (p : page) (c : N) (raw : jsstring)
    (Hraw : trim (inputEl_value p) = c :: raw)
    (Hload : fst (loadHistory p) = Ok (JArr (map to_js history)))
    (statusText : jsstring) (data : jsval) (reply : jsstring) :
  fetch (turn_body history (c :: raw)) = FetchResolves true statusText (JsonResolves data) →
  get_prop data "reply" = Ok (JStr reply) →
  sendMessage p =
  (Ok tt, settled p (history ++ [user_message (c :: raw); assistant_message reply])
            (turn_body history (c :: raw))).
Proof. by apply turn_reply. Qed.

(** X2: when [fetch] rejects, the response is not [ok] or its body is not JSON,
    the turn ends with the user Message and an assistant Message that
    carries the error. *)
Theorem sendMessage_error (history : list Message) (p : page) (c : N) (raw : jsstring)
    (Hraw : trim (inputEl_value p) = c :: raw)
    (Hload : fst (loadHistory p) = Ok (JArr (map to_js history)))
    (err : jserror) :
  response_error (fetch (turn_body history (c :: raw))) = Some err →
  sendMessage p =
  (Ok tt, settled p (history ++ [user_message (c :: raw);
                                 assistant_message (lit "Error: " ++ err_message err)])
            (turn_body history (c :: raw))).
Proof. by apply turn_error. Qed.

(** X3: when the body of the response is [null], reading [data.reply] throws
    after the placeholder was popped, and [catch] pops again: the user
    Message is gone from the stored history, which ends with the error. *)
Theorem sendMessage_reply_unreadable (history : list Message) (p : page) (c : N)
    (raw : jsstring)
    (Hraw : trim (inputEl_value p) = c :: raw)
    (Hload : fst (loadHistory p) = Ok (JArr (map to_js history)))
    (statusText : jsstring) (data : jsval) (err : jserror) :
  fetch (turn_body history (c :: raw)) = FetchResolves true statusText (JsonResolves data) →
  get_prop data "reply" = Raise err →
  sendMessage p =
  (Ok tt, settled p (history ++ [assistant_message (lit "Error: " ++ err_message err)])
            (turn_body history (c :: raw))).
Proof. by apply turn_reply_unreadable. Qed.

(** X4: when the response has no string under [reply], rendering the new entry
    throws, and the entry gives way to an assistant Message with that
    error. *)
Theorem sendMessage_reply_not_string (history : list Message) (p : page) (c : N)
    (raw : jsstring)
    (Hraw : trim (inputEl_value p) = c :: raw)
    (Hload : fst (loadHistory p) = Ok (JArr (map to_js history)))
    (statusText : jsstring) (data reply : jsval) (err : jserror) :
  fetch (turn_body history (c :: raw)) = FetchResolves true statusText (JsonResolves data) →
  get_prop data "reply" = Ok reply →
  escapeHtml reply = Raise err →
  sendMessage p =
  (Ok tt, settled p (history ++ [user_message (c :: raw);
                                 assistant_message (lit "Error: " ++ err_message err)])
            (turn_body history (c :: raw))).
Proof. by apply turn_reply_not_string. Qed.

Lemma escapeHtml_not_string (v : jsval) :
  (∃ s, v = JStr s) ∨ ∃ err, escapeHtml v = Raise err.
Proof. destruct v; eauto. Qed.

(** However the network call of a turn ends, the turn ends in a settled
    page. *)
Lemma turn_settles (history : list Message) (p : page) (c : N)
    (raw : jsstring) :
  trim (inputEl_value p) = c :: raw →
  fst (loadHistory p) = Ok (JArr (map to_js history)) →
  ∃ text final,
    (final = history ++ [user_message (c :: raw); assistant_message text] ∨
     final = history ++ [assistant_message text]) ∧
    sendMessage p = (Ok tt, settled p final (turn_body history (c :: raw))).
Proof.
  intros Hraw Hload.
  destruct (response_error (fetch (turn_body history (c :: raw)))) as [err|] eqn:Herr.
  { eexists _, _. split; [left; reflexivity|]. by apply turn_error. }
  destruct (fetch (turn_body history (c :: raw))) as [ok statusText json|e] eqn:Hfetch;
    [|discriminate].
  destruct ok; [|discriminate]. destruct json as [data|e]; [|discriminate].
  destruct (get_prop data "reply") as [reply|err] eqn:Hreply.
  - destruct (escapeHtml_not_string reply) as [[s ->]|[err Hescape]].
    + eexists _, _. split; [left; reflexivity|]. by eapply turn_reply.
    + eexists _, _. split; [left; reflexivity|]. by eapply turn_reply_not_string.
  - eexists _, _. split; [right; reflexivity|]. by eapply turn_reply_unreadable.
Qed.

(** X5: with a history of Messages stored and an input that is not blank, a
    turn never throws, whatever the network does: it posts once and leaves
    stored and shown a history of Messages that is the old one with an
    assistant Message added, after the user Message in every case but that
    of a reply that cannot be read. *)
Theorem sendMessage_keeps_history (history : list Message) (p : page) (c : N)
    (raw : jsstring) :
  trim (inputEl_value p) = c :: raw →
  fst (loadHistory p) = Ok (JArr (map to_js history)) →
  ∃ text final,
    (final = history ++ [user_message (c :: raw); assistant_message text] ∨
     final = history ++ [assistant_message text]) ∧
    sendMessage p = (Ok tt, settled p final (turn_body history (c :: raw))).
Proof. apply turn_settles. Qed.

(** After a turn the storage holds the history the turn ended with, so the
    next turn, or a reload of the page, starts from it. *)
Lemma loadHistory_settled (p : page) (final : list Message) (body : jsstring) :
  fst (loadHistory (settled p final body)) = Ok (JArr (map to_js final)).
Proof.
  unfold loadHistory, bind, getItem, settled. cbn [localStorage].
  rewrite lookup_insert_eq.
  pose proof (JSON_parse_history final) as Hparse.
  destruct (history_text final) as [|d text] eqn:Htext; [discriminate Htext|].
  by rewrite Hparse.
Qed.


(** *** What [sendMessage] leaves alone *)

Lemma quiet_refl (p : page) : quiet p p.
Proof. by repeat split. Qed.

Lemma quiet_trans (p q r : page) : quiet p q → quiet q r → quiet p r.
Proof.
  intros (Hs1 & Hi1 & Hp1) (Hs2 & Hi2 & Hp2). repeat split.
  - intros k Hk. by rewrite Hs2, Hs1.
  - by rewrite Hi2.
  - by rewrite Hp2.
Qed.

Lemma quiet_saveHistory (history : jsval) (p : page) : quiet p (snd (saveHistory history p)).
Proof.
  repeat split. intros k Hk. cbn [saveHistory setItem snd localStorage].
  by rewrite lookup_insert_ne.
Qed.

Lemma quiet_forEach_render (elems : list jsval) (p : page) :
  quiet p (snd (forEach_render elems p)).
Proof.
  revert p. induction elems as [|m elems IH]; intros p; cbn [forEach_render].
  - apply quiet_refl.
  - unfold bind, lift, appendChild. destruct (render_message m); [|apply quiet_refl].
    eapply quiet_trans; [|apply IH]. by repeat split.
Qed.

Lemma quiet_renderMessages (history : jsval) (p : page) :
  quiet p (snd (renderMessages history p)).
Proof.
  unfold renderMessages, bind, clear_messagesEl.
  destruct history; try (by repeat split).
  eapply quiet_trans; [|apply quiet_forEach_render]. by repeat split.
Qed.

Lemma quiet_save_render (history : jsval) (p : page) :
  quiet p (snd ((let* _ := saveHistory history in renderMessages history) p)).
Proof.
  unfold bind. cbn [saveHistory setItem].
  eapply quiet_trans; [|apply quiet_renderMessages].
  apply (quiet_saveHistory history p).
Qed.

Lemma quiet_catch_block (err : jserror) (history : list jsval) (p : page) :
  quiet p (snd (catch_block err history p)).
Proof. unfold catch_block. apply quiet_save_render. Qed.

(** The block of [try] posts at most once and is quiet otherwise. *)
Lemma try_block_frame (history : list jsval) (p : page) :
  ∃ extra, (length extra <= 1)%nat ∧
    quiet (Page (localStorage p) (inputEl_value p) (messagesEl p) (posted p ++ extra))
          (snd (try_block history p)).
Proof.
  unfold try_block.
  destruct (filter_content_not_ellipsis history) as [kept|e].
  2:{ exists []. split; [cbn; lia|]. rewrite app_nil_r. cbn [snd]. by repeat split. }
  eexists [_]. split; [cbn; lia|]. unfold post.
  destruct (fetch _) as [ok statusText json|e]; [|apply quiet_refl].
  destruct ok; [|apply quiet_refl]. cbn [negb].
  destruct json as [data|e]; [|apply quiet_refl].
  destruct (get_prop data "reply") as [reply|e]; [|apply quiet_refl].
  match goal with
  | |- context [(let* _ := saveHistory ?h in renderMessages ?h) ?q] =>
      pose proof (quiet_save_render h q) as Hq;
      destruct ((let* _ := saveHistory h in renderMessages h) q) as [r p2]
  end.
  exact Hq.
Qed.

Lemma loadHistory_total (p : page) : ∃ v, loadHistory p = (Ok v, p).
Proof.
  unfold loadHistory, bind, getItem.
  destruct (localStorage p !! cute_chat_history) as [[|c text]|]; eauto.
  destruct (JSON_parse (c :: text)); eauto.
Qed.

(** [sendMessage] either returns at its guard, or empties the text area,
    posts at most once and is quiet otherwise. *)
Lemma sendMessage_cases (p : page) :
  (trim (inputEl_value p) = [] ∧ sendMessage p = (Ok tt, p)) ∨
  (trim (inputEl_value p) ≠ [] ∧
   ∃ extra, (length extra <= 1)%nat ∧
     quiet (Page (localStorage p) [] (messagesEl p) (posted p ++ extra))
           (snd (sendMessage p))).
Proof.
  destruct (trim (inputEl_value p)) as [|c raw] eqn:Hraw.
  { left. split; [reflexivity|].
    unfold sendMessage, bind, get_inputEl_value. by rewrite Hraw. }
  right. split; [discriminate|].
  unfold sendMessage. unfold bind at 1. unfold get_inputEl_value. rewrite Hraw.
  unfold bind at 1. unfold set_inputEl_value.
  set (p1 := Page (localStorage p) [] (messagesEl p) (posted p)).
  change (∃ extra, (length extra <= 1)%nat ∧
            quiet (Page (localStorage p1) (inputEl_value p1) (messagesEl p1)
                        (posted p1 ++ extra))
                  (snd ((let* loaded := loadHistory in
                         let* history := lift (push loaded (message "user" (JStr (c :: raw)))) in
                         let* _ := renderMessages (JArr history) in
                         let* _ := saveHistory (JArr history) in
                         let* _ := renderMessages (JArr (history ++ [typingPlaceholder])) in
                         fun p =>
                           match try_block (history ++ [typingPlaceholder]) p with
                           | (Ok _, _, p') => (Ok tt, p')
                           | (Raise err, history', p') => catch_block err history' p'
                           end) p1))).
  assert (Hquiet : ∀ q, quiet p1 q → ∃ extra, (length extra <= 1)%nat ∧
            quiet (Page (localStorage p1) (inputEl_value p1) (messagesEl p1)
                        (posted p1 ++ extra)) q).
  { intros q Hq. exists []. split; [cbn; lia|]. rewrite app_nil_r. by destruct p1. }
  unfold bind at 1.
  destruct (loadHistory_total p1) as [v Hload]. rewrite Hload.
  unfold bind at 1. unfold lift.
  destruct (push v (message "user" (JStr (c :: raw)))) as [history|e];
    [|apply Hquiet, quiet_refl].
  unfold bind at 1.
  pose proof (quiet_renderMessages (JArr history) p1) as Hq2.
  destruct (renderMessages (JArr history) p1) as [[[]|e] p2]; cbn [snd] in Hq2 |- *;
    [|by apply Hquiet].
  unfold bind at 1.
  pose proof (quiet_saveHistory (JArr history) p2) as Hq3.
  destruct (saveHistory (JArr history) p2) as [[[]|e] p3] eqn:Hsave; cbn [snd] in Hq3 |- *;
    [|discriminate Hsave].
  unfold bind at 1.
  pose proof (quiet_renderMessages (JArr (history ++ [typingPlaceholder])) p3) as Hq4.
  destruct (renderMessages (JArr (history ++ [typingPlaceholder])) p3) as [[[]|e] p4];
    cbn [snd] in Hq4 |- *.
  2:{ apply Hquiet. eauto using quiet_trans. }
  assert (Hq14 : quiet p1 p4) by eauto using quiet_trans.
  destruct (try_block_frame (history ++ [typingPlaceholder]) p4) as (extra & Hlen & Hq5).
  assert (Hq15 : quiet (Page (localStorage p1) (inputEl_value p1) (messagesEl p1)
                             (posted p1 ++ extra))
                       (snd (try_block (history ++ [typingPlaceholder]) p4))).
  { eapply quiet_trans; [|exact Hq5].
    destruct Hq14 as (Hs & Hi & Hp). repeat split; cbn; try done. by rewrite Hp. }
  destruct (try_block (history ++ [typingPlaceholder]) p4) as [[[u|err] history'] p5];
    cbn [snd] in Hq15 |- *.
  - by exists extra.
  - exists extra. split; [exact Hlen|].
    eapply quiet_trans; [exact Hq15|apply quiet_catch_block].
Qed.

(** X6: [sendMessage] reads and writes one storage key: every other key keeps
    its value, whatever the page holds and whatever the network does. *)
Theorem sendMessage_other_keys (p : page) (k : jsstring) :
  k ≠ cute_chat_history →
  localStorage (snd (sendMessage p)) !! k = localStorage p !! k.
Proof.
  intros Hk. destruct (sendMessage_cases p) as [[_ ->]|(_ & extra & _ & Hs & _)];
    [reflexivity|]. exact (Hs k Hk).
Qed.

(** X7: one call of [sendMessage] posts at most one request, and keeps the
    requests posted before. *)
Theorem sendMessage_posts_at_most_once (p : page) :
  ∃ extra, (length extra <= 1)%nat ∧ posted (snd (sendMessage p)) = posted p ++ extra.
Proof.
  destruct (sendMessage_cases p) as [[_ ->]|(_ & extra & Hlen & _ & _ & Hp)].
  - exists []. split; [cbn; lia | by rewrite app_nil_r].
  - by exists extra.
Qed.

Lemma trim_some (s : jsstring) :
  Exists (fun c => is_js_whitespace c = false) s → trim s ≠ [].
Proof. apply (strip_both_some is_js_whitespace trimStart); [reflexivity|apply trimStart_cons]. Qed.

(** X8: with a character that is not white space typed, [sendMessage] empties
    the text area, also when it goes on to throw. *)
Theorem sendMessage_clears_input (p : page) :
  Exists (fun c => is_js_whitespace c = false) (inputEl_value p) →
  inputEl_value (snd (sendMessage p)) = [].
Proof.
  intros Hsome. destruct (sendMessage_cases p) as [[Hnil _]|(_ & extra & _ & _ & Hi & _)].
  - by apply trim_some in Hsome.
  - exact Hi.
Qed.

(** X9: the text posted as the user Message is the input without the white
    space around it. *)
Theorem sendMessage_posts_trimmed (history : list Message) (p : page) :
  fst (loadHistory p) = Ok (JArr (map to_js history)) →
  Exists (fun c => is_js_whitespace c = false) (inputEl_value p) →
  ∃ l content r,
    inputEl_value p = l ++ content ++ r ∧
    Forall (fun c => is_js_whitespace c = true) l ∧
    Forall (fun c => is_js_whitespace c = true) r ∧
    (∃ c t, content = c :: t ∧ is_js_whitespace c = false) ∧
    (∃ t c, content = t ++ [c] ∧ is_js_whitespace c = false) ∧
    posted (snd (sendMessage p)) = posted p ++ [turn_body history content].
Proof.
  intros Hload Hsome.
  destruct (strip_both_split is_js_whitespace trimStart eq_refl trimStart_cons (inputEl_value p))
    as (l & r & Hsplit & Hl & Hr).
  fold (trim (inputEl_value p)) in Hsplit.
  pose proof (trim_some _ Hsome) as Hne.
  destruct (trim (inputEl_value p)) as [|c raw] eqn:Hraw; [done|].
  exists l, (c :: raw), r. split; [exact Hsplit|]. split; [exact Hl|]. split; [exact Hr|].
  split; [|split].
  - exists c, raw. split; [reflexivity|].
    exact (strip_both_head is_js_whitespace trimStart eq_refl trimStart_cons _ _ _ Hraw).
  - destruct (exists_last (l := c :: raw)) as (t & d & Hlast); [discriminate|].
    exists t, d. split; [exact Hlast|]. rewrite Hlast in Hraw.
    exact (strip_both_last is_js_whitespace trimStart eq_refl trimStart_cons _ _ _ Hraw).
  - exact (sendMessage_posted history p c raw Hraw Hload).
Qed.

(** *** Storage that holds JSON which is no array *)

Lemma push_not_array (v x : jsval) :
  is_array v = false → ∃ msg, push v x = Raise (TypeError msg).
Proof. destruct v; try discriminate; eauto. Qed.

(** X12: when what [loadHistory] returns is no array, loading the page throws
    with the message list emptied, and every [sendMessage] throws after it
    emptied the text area: nothing is stored, shown or posted, so the stored
    value stays. *)
Theorem not_array_blocks (p : page) (v : jsval) :
  fst (loadHistory p) = Ok v →
  is_array v = false →
  (∃ msg, initialize p =
          (Raise (TypeError msg),
           Page (localStorage p) (inputEl_value p) [] (posted p))) ∧
  (trim (inputEl_value p) ≠ [] →
   ∃ msg, sendMessage p =
          (Raise (TypeError msg), Page (localStorage p) [] (messagesEl p) (posted p))).
Proof.
  intros Hload Hv. split.
  - unfold initialize, bind. destruct (loadHistory_total p) as [v' Hv'].
    rewrite Hv' in Hload |- *. cbn [fst] in Hload. injection Hload as ->.
    unfold renderMessages, bind, clear_messagesEl, throw.
    destruct v; try discriminate; eauto.
  - intros Hne. destruct (trim (inputEl_value p)) as [|c raw] eqn:Hraw; [done|].
    unfold sendMessage. unfold bind at 1. unfold get_inputEl_value. rewrite Hraw.
    unfold bind at 1. unfold set_inputEl_value. unfold bind at 1.
    set (p1 := Page (localStorage p) [] (messagesEl p) (posted p)).
    destruct (loadHistory_total p1) as [v' Hv'].
    assert (v' = v) as ->.
    { pose proof (loadHistory_same_storage p p1 eq_refl) as Hsame.
      rewrite Hv', Hload in Hsame. cbn [fst] in Hsame. congruence. }
    rewrite Hv'. unfold bind at 1. unfold lift.
    destruct (push_not_array v (message "user" (JStr (c :: raw))) Hv) as [msg ->].
    by exists msg.
Qed.

(** *** Loading the page *)

Lemma initialize_messages (history : list Message) (p : page) :
  fst (loadHistory p) = Ok (JArr (map to_js history)) →
  initialize p =
  (Ok tt, Page (localStorage p) (inputEl_value p) (map rendered history) (posted p)).
Proof.
  intros Hload. unfold initialize, bind.
  destruct (loadHistory_total p) as [v Hv]. rewrite Hv in Hload |- *.
  cbn [fst] in Hload. injection Hload as ->. apply renderMessages_messages.
Qed.

(** X13: loading the page shows the stored history, one element for each
    Message and in their order, whatever was shown before; storage, text
    area and network are left alone. *)
Theorem initialize_shows_history (history : list Message) (p : page) :
  fst (loadHistory p) = Ok (JArr (map to_js history)) →
  initialize p =
  (Ok tt, Page (localStorage p) (inputEl_value p) (map rendered history) (posted p)).
Proof. apply initialize_messages. Qed.

(** X14: a turn and the reload after it.  With a history of Messages
    stored and an input that is not blank, whatever the network does,
    [sendMessage] leaves in storage a history of Messages: the next
    [loadHistory] on any page with that storage reads it, it is the old
    history with the Messages of the turn added, and a reload of the page
    shows again exactly the elements the turn left on the screen. *)
Theorem reload_after_turn (history : list Message) (p q : page) (c : N) (raw : jsstring) :
  trim (inputEl_value p) = c :: raw →
  fst (loadHistory p) = Ok (JArr (map to_js history)) →
  localStorage q = localStorage (snd (sendMessage p)) →
  ∃ text final,
    (final = history ++ [user_message (c :: raw); assistant_message text] ∨
     final = history ++ [assistant_message text]) ∧
    fst (loadHistory q) = Ok (JArr (map to_js final)) ∧
    messagesEl (snd (sendMessage p)) = map rendered final ∧
    initialize q =
    (Ok tt, Page (localStorage q) (inputEl_value q) (messagesEl (snd (sendMessage p)))
              (posted q)).
Proof.
  intros Hraw Hload Hq.
  destruct (turn_settles history p c raw Hraw Hload) as (text & final & Hfinal & Hsend).
  rewrite Hsend in Hq |- *. cbn [snd] in Hq |- *.
  assert (Hfrom : fst (loadHistory q) = Ok (JArr (map to_js final))).
  { rewrite (loadHistory_same_storage _ _ Hq). apply loadHistory_settled. }
  exists text, final. split; [exact Hfinal|]. split; [exact Hfrom|].
  split; [reflexivity|]. cbn [messagesEl settled]. by apply initialize_messages.
Qed.

(** *** Text the expressions do not match *)

Lemma replace_from_no_match (re : regexp) (by_ : jsstring → jsstring) (s : jsstring) :
  matches_somewhere re s = false →
  ∀ n, replace_from n re by_ s = s.
Proof.
  induction s as [|c s IH]; intros Hno n; [by destruct n|].
  cbn [matches_somewhere] in Hno. apply orb_false_elim in Hno as [Hhere Hlater].
  destruct n as [|n]; [reflexivity|]. cbn [replace_from].
  destruct (re (c :: s)) as [[m rest]|] eqn:Hre.
  - apply bool_decide_eq_false in Hhere. destruct Hhere. by eexists.
  - by rewrite IH.
Qed.

(** X16: a content without any of the five characters, without a URL and
    without a newline is shown as it is. *)
Theorem rendered_plain_text (m : Message) :
  matches_somewhere re_html_special (msg_content m) = false →
  matches_somewhere re_url (msg_content m) = false →
  matches_somewhere re_newline (msg_content m) = false →
  innerHTML (rendered m) = msg_content m.
Proof.
  intros Hspecial Hurl Hnewline. cbn [innerHTML rendered].
  rewrite <- escapeHtml_string_chars. unfold escapeHtml_string, linkify, replace_newlines, replace_g.
  rewrite (replace_from_no_match _ _ _ Hspecial), (replace_from_no_match _ _ _ Hurl).
  apply (replace_from_no_match _ _ _ Hnewline).
Qed.

Lemma span_not_space_all (run : jsstring) :
  Forall (fun c => is_js_whitespace c = false) run → span_not_space run = (run, []).
Proof.
  induction 1 as [|c run Hc _ IH]; [reflexivity|].
  cbn [span_not_space]. by rewrite Hc, IH.
Qed.

(** X17: a text that is one URL, with either scheme, becomes one link to it. *)
Theorem linkify_url (secure : bool) (run : jsstring) :
  run ≠ [] →
  Forall (fun c => is_js_whitespace c = false) run →
  let url := (if secure then lit "https" else lit "http") ++ lit "://" ++ run in
  linkify url = anchor url.
Proof.
  intros Hne Hrun url. unfold linkify, replace_g.
  assert (Hre : re_url url = Some (url, [])).
  { subst url. unfold re_url. destruct secure.
    - change (lit "https" ++ lit "://" ++ run)
        with (104 :: 116 :: 116 :: 112 :: 115 :: 58 :: 47 :: 47 :: run).
      change (lit "http") with [104; 116; 116; 112]. change (lit "://") with [58; 47; 47].
      cbn [strip_prefix]. eval_tests. cbn [strip_prefix]. eval_tests.
      rewrite (span_not_space_all _ Hrun). destruct run; [done|reflexivity].
    - change (lit "http" ++ lit "://" ++ run)
        with (104 :: 116 :: 116 :: 112 :: 58 :: 47 :: 47 :: run).
      change (lit "http") with [104; 116; 116; 112]. change (lit "://") with [58; 47; 47].
      cbn [strip_prefix]. eval_tests. cbn [strip_prefix]. eval_tests.
      rewrite (span_not_space_all _ Hrun). destruct run; [done|reflexivity]. }
  destruct url as [|c t] eqn:Hurl; [by destruct secure|].
  cbn [length replace_from]. rewrite Hre. destruct (length t); cbn [replace_from];
    by rewrite app_nil_r.
Qed.


(** *** The body posted is JSON *)

Lemma parse_members_history_last (k r : jsstring) (history : list Message) (extra : nat) :
  parse_members (S (length history + 5 + extra))
    (34 :: quote_chars k ++ quot ++ 58 :: history_text history ++ 125 :: r) =
  Some ([(k, JArr (map to_js history))], r).
Proof.
  cbn [parse_members]. rewrite skip_ws_head by reflexivity. eval_tests.
  rewrite parse_chars_quote_chars. cbn [mbind option_bind].
  rewrite skip_ws_head by reflexivity. eval_tests.
  rewrite parse_value_history. cbn [mbind option_bind].
  rewrite skip_ws_head by reflexivity. eval_tests. reflexivity.
Qed.

Lemma request_text_app (messages : list Message) :
  request_text messages =
  123 :: 34 :: quote_chars (lit "messages") ++ quot ++ 58 :: history_text messages ++ 125 :: [].
Proof.
  unfold request_text. rewrite (QuoteJSONString_app (lit "messages")). reflexivity.
Qed.

(** [JSON.parse] reads the body of a request back as an object whose
    [messages] are the Messages it was written from. *)
Lemma JSON_parse_request (messages : list Message) :
  JSON_parse (request_text messages) =
  Some (JObj [(lit "messages", JArr (map to_js messages))]).
Proof.
  unfold JSON_parse.
  assert (Hfuel : ∃ extra, (2 * length (request_text messages) + 2 =
                            S (S (length messages + 5 + extra)))%nat).
  { exists (2 * length (request_text messages) + 2 - (length messages + 7))%nat.
    pose proof (length_join_comma messages) as Hlen.
    rewrite request_text_app. unfold history_text.
    cbn [length]. rewrite !length_app. cbn [length]. rewrite !length_app. lia. }
  destruct Hfuel as [extra ->].
  rewrite request_text_app, parse_value_object, parse_members_history_last.
  reflexivity.
Qed.

(** X10: with a history of Messages stored and an input that is not blank, the
    one body [sendMessage] posts is JSON: an object whose [messages] are
    the stored Messages and the new user Message, in order, less every
    entry whose content is the ellipsis; so the placeholder is never
    sent. *)
Theorem sendMessage_posts_json (history : list Message) (p : page) (c : N) (raw : jsstring) :
  trim (inputEl_value p) = c :: raw →
  fst (loadHistory p) = Ok (JArr (map to_js history)) →
  ∃ body sent,
    posted (snd (sendMessage p)) = posted p ++ [body] ∧
    JSON_parse body = Some (JObj [(lit "messages", JArr (map to_js sent))]) ∧
    sent = List.filter content_not_ellipsis (history ++ [user_message (c :: raw)]) ∧
    Forall (fun m => msg_content m ≠ ellipsis) sent.
Proof.
  intros Hraw Hload.
  exists (turn_body history (c :: raw)),
         (List.filter content_not_ellipsis (history ++ [user_message (c :: raw)])).
  split; [exact (sendMessage_posted history p c raw Hraw Hload)|].
  split; [apply JSON_parse_request|]. split; [reflexivity|].
  apply Forall_forall. intros m Hm. apply list_elem_of_In, filter_In in Hm as [_ Hm].
  unfold content_not_ellipsis in Hm. apply negb_true_iff in Hm.
  by apply bool_decide_eq_false in Hm.
Qed.

End Engine.

(** ** The facts at concrete pages *)

Lemma sendMessage_blank_input_witness :
  Forall (fun c => is_js_whitespace c = true) (inputEl_value blank_page) ∧
  sendMessage zero_of_literal text_of_zero replying blank_page = (Ok tt, blank_page).
Proof.
  split; [by repeat constructor|].
  apply (sendMessage_blank_input zero_of_literal text_of_zero replying blank_page).
  by repeat constructor.
Defined.


Lemma renderMessages_stops_witness :
  render_message JNull =
    Raise (TypeError (lit "Cannot read properties of null (reading 'role')")) ∧
  renderMessages (JArr (map to_js [user_message (lit "hi")] ++ JNull :: [])) typed_hi =
  (Raise (TypeError (lit "Cannot read properties of null (reading 'role')")),
   Page ∅ (lit " hi ") (map rendered [user_message (lit "hi")]) []).
Proof.
  split; [reflexivity|].
  apply (renderMessages_stops [user_message (lit "hi")] JNull []
           (TypeError (lit "Cannot read properties of null (reading 'role')")) typed_hi).
  reflexivity.
Defined.

Lemma sendMessage_reply_witness :
  trim (inputEl_value typed_hi) = 104 :: [105] ∧
  sendMessage zero_of_literal text_of_zero replying typed_hi =
  (Ok tt, settled typed_hi [user_message (lit "hi"); assistant_message (lit "Hello!")]
            (turn_body [] (lit "hi"))).
Proof.
  split; [reflexivity|].
  apply (sendMessage_reply zero_of_literal text_of_zero replying [] typed_hi 104 [105]
           eq_refl eq_refl (lit "OK") (JObj [(lit "reply", JStr (lit "Hello!"))]) (lit "Hello!"));
    reflexivity.
Defined.

Lemma sendMessage_error_witness :
  response_error (offline (turn_body [] (lit "hi"))) =
    Some (TypeError (lit "Failed to fetch")) ∧
  sendMessage zero_of_literal text_of_zero offline typed_hi =
  (Ok tt, settled typed_hi
            [user_message (lit "hi"); assistant_message (lit "Error: Failed to fetch")]
            (turn_body [] (lit "hi"))).
Proof.
  split; [reflexivity|].
  apply (sendMessage_error zero_of_literal text_of_zero offline [] typed_hi 104 [105]
           eq_refl eq_refl (TypeError (lit "Failed to fetch"))).
  reflexivity.
Defined.

Lemma sendMessage_reply_unreadable_witness :
  get_prop JNull "reply" =
    Raise (TypeError (lit "Cannot read properties of null (reading 'reply')")) ∧
  sendMessage zero_of_literal text_of_zero answering_null typed_hi =
  (Ok tt, settled typed_hi
            [assistant_message
               (lit "Error: Cannot read properties of null (reading 'reply')")]
            (turn_body [] (lit "hi"))).
Proof.
  split; [reflexivity|].
  apply (sendMessage_reply_unreadable zero_of_literal text_of_zero answering_null [] typed_hi
           104 [105] eq_refl eq_refl (lit "OK") JNull
           (TypeError (lit "Cannot read properties of null (reading 'reply')")));
    reflexivity.
Defined.

Lemma sendMessage_reply_not_string_witness :
  get_prop (JObj []) "reply" = Ok JUndefined ∧
  sendMessage zero_of_literal text_of_zero answering_empty typed_hi =
  (Ok tt, settled typed_hi
            [user_message (lit "hi");
             assistant_message
               (lit "Error: Cannot read properties of undefined (reading 'replace')")]
            (turn_body [] (lit "hi"))).
Proof.
  split; [reflexivity|].
  apply (sendMessage_reply_not_string zero_of_literal text_of_zero answering_empty [] typed_hi
           104 [105] eq_refl eq_refl (lit "OK") (JObj []) JUndefined
           (TypeError (lit "Cannot read properties of undefined (reading 'replace')")));
    reflexivity.
Defined.

Lemma sendMessage_other_keys_witness :
  lit "theme" ≠ cute_chat_history ∧
  localStorage (snd (sendMessage zero_of_literal text_of_zero replying typed_hi)) !! lit "theme" =
  localStorage typed_hi !! lit "theme".
Proof.
  split; [discriminate|].
  apply (sendMessage_other_keys zero_of_literal text_of_zero replying typed_hi (lit "theme")).
  discriminate.
Defined.

Lemma sendMessage_clears_input_witness :
  Exists (fun c => is_js_whitespace c = false) (inputEl_value typed_hi) ∧
  inputEl_value (snd (sendMessage zero_of_literal text_of_zero offline typed_hi)) = [].
Proof.
  split; [right; by left|].
  apply (sendMessage_clears_input zero_of_literal text_of_zero offline typed_hi).
  right. by left.
Defined.

Lemma sendMessage_posts_trimmed_witness :
  fst (loadHistory zero_of_literal typed_hi) = Ok (JArr (map to_js [])) ∧
  ∃ l content r,
    inputEl_value typed_hi = l ++ content ++ r ∧
    Forall (fun c => is_js_whitespace c = true) l ∧
    Forall (fun c => is_js_whitespace c = true) r ∧
    (∃ c t, content = c :: t ∧ is_js_whitespace c = false) ∧
    (∃ t c, content = t ++ [c] ∧ is_js_whitespace c = false) ∧
    posted (snd (sendMessage zero_of_literal text_of_zero replying typed_hi)) =
    posted typed_hi ++ [turn_body [] content].
Proof.
  split; [reflexivity|].
  apply (sendMessage_posts_trimmed zero_of_literal text_of_zero replying [] typed_hi).
  - reflexivity.
  - right. by left.
Defined.

Lemma not_array_blocks_witness :
  fst (loadHistory zero_of_literal null_stored) = Ok JNull ∧
  is_array JNull = false ∧
  ∃ msg, initialize zero_of_literal null_stored =
         (Raise (TypeError msg),
          Page (localStorage null_stored) (inputEl_value null_stored) [] (posted null_stored)).
Proof.
  split; [reflexivity|]. split; [reflexivity|].
  apply (not_array_blocks zero_of_literal text_of_zero replying null_stored JNull);
    reflexivity.
Defined.

Lemma initialize_shows_history_witness :
  fst (loadHistory zero_of_literal hi_stored) = Ok (JArr (map to_js [user_message (lit "hi")])) ∧
  initialize zero_of_literal hi_stored =
  (Ok tt, Page (localStorage hi_stored) [] (map rendered [user_message (lit "hi")]) []).
Proof.
  split; [reflexivity|].
  apply (initialize_shows_history zero_of_literal [user_message (lit "hi")] hi_stored).
  reflexivity.
Defined.

Lemma rendered_plain_text_witness :
  matches_somewhere re_html_special (lit "hello") = false ∧
  matches_somewhere re_url (lit "hello") = false ∧
  matches_somewhere re_newline (lit "hello") = false ∧
  innerHTML (rendered (user_message (lit "hello"))) = lit "hello".
Proof.
  repeat (split; [reflexivity|]).
  apply (rendered_plain_text (user_message (lit "hello"))); reflexivity.
Defined.

Lemma linkify_url_witness :
  lit "a.b" ≠ [] ∧
  Forall (fun c => is_js_whitespace c = false) (lit "a.b") ∧
  linkify (lit "https" ++ lit "://" ++ lit "a.b") =
  anchor (lit "https" ++ lit "://" ++ lit "a.b").
Proof.
  split; [discriminate|]. split; [by repeat constructor|].
  apply (linkify_url true (lit "a.b")); [discriminate | by repeat constructor].
Defined.


Lemma sendMessage_keeps_history_witness :
  trim (inputEl_value typed_hi) = 104 :: [105] ∧
  fst (loadHistory zero_of_literal typed_hi) = Ok (JArr (map to_js [])) ∧
  ∃ text final,
    (final = [] ++ [user_message (lit "hi"); assistant_message text] ∨
     final = [] ++ [assistant_message text]) ∧
    sendMessage zero_of_literal text_of_zero offline typed_hi =
    (Ok tt, settled typed_hi final (turn_body [] (lit "hi"))).
Proof.
  split; [reflexivity|]. split; [reflexivity|].
  apply (sendMessage_keeps_history zero_of_literal text_of_zero offline [] typed_hi 104 [105]);
    reflexivity.
Defined.

Lemma sendMessage_posts_json_witness :
  trim (inputEl_value typed_hi) = 104 :: [105] ∧
  ∃ body sent,
    posted (snd (sendMessage zero_of_literal text_of_zero replying typed_hi)) =
      posted typed_hi ++ [body] ∧
    JSON_parse zero_of_literal body = Some (JObj [(lit "messages", JArr (map to_js sent))]) ∧
    sent = List.filter content_not_ellipsis ([] ++ [user_message (lit "hi")]) ∧
    Forall (fun m => msg_content m ≠ ellipsis) sent.
Proof.
  split; [reflexivity|].
  apply (sendMessage_posts_json zero_of_literal text_of_zero replying [] typed_hi 104 [105]);
    reflexivity.
Defined.

Lemma sendMessage_posted_all_witness :
  trim (inputEl_value typed_hi) = 104 :: [105] ∧
  lit "hi" ≠ ellipsis ∧
  posted (snd (sendMessage zero_of_literal text_of_zero replying typed_hi)) =
  posted typed_hi ++ [request_text ([] ++ [Build_Message (lit "user") (lit "hi")])].
Proof.
  split; [reflexivity|]. split; [discriminate|].
  apply (sendMessage_posted_all zero_of_literal text_of_zero replying [] typed_hi 104 [105]);
    [reflexivity | reflexivity | constructor | discriminate].
Defined.

Lemma reload_after_turn_witness :
  let after := snd (sendMessage zero_of_literal text_of_zero replying typed_hi) in
  let q := Page (localStorage after) [] [] [] in
  trim (inputEl_value typed_hi) = 104 :: [105] ∧
  fst (loadHistory zero_of_literal typed_hi) = Ok (JArr (map to_js [])) ∧
  localStorage q = localStorage after ∧
  ∃ text final,
    (final = [] ++ [user_message (lit "hi"); assistant_message text] ∨
     final = [] ++ [assistant_message text]) ∧
    fst (loadHistory zero_of_literal q) = Ok (JArr (map to_js final)) ∧
    messagesEl after = map rendered final ∧
    initialize zero_of_literal q =
    (Ok tt, Page (localStorage q) (inputEl_value q) (messagesEl after) (posted q)).
Proof.
  intros after q.
  split; [reflexivity|]. split; [reflexivity|]. split; [reflexivity|].
  apply (reload_after_turn zero_of_literal text_of_zero replying [] typed_hi q 104 [105]);
    reflexivity.
Defined.

(** A [script] element typed as a message is shown as text. *)
Example rendered_script :
  innerHTML (rendered (Build_Message (lit "user") (lit "<script>alert(1)</script>"))) =
  lit "&lt;script&gt;alert(1)&lt;/script&gt;".
Proof. reflexivity. Qed.

(** A bare URL becomes a link, and a newline a line break. *)
Example rendered_link :
  innerHTML (rendered (Build_Message (lit "assistant") (lit "see https://a.b/c?d" ++ [10] ++ lit "ok"))) =
  lit "see <a href=" ++ quot ++ lit "https://a.b/c?d" ++ quot ++ lit " target=" ++ quot
  ++ lit "_blank" ++ quot ++ lit " rel=" ++ quot ++ lit "noopener" ++ quot
  ++ lit ">https://a.b/c?d</a><br>ok".
Proof. reflexivity. Qed.

(** Corrupt storage reads as the empty history. *)
Example loadHistory_corrupt :
  fst (loadHistory zero_of_literal
         (Page {[ cute_chat_history := lit "[{oops" ]} [] [] [])) = Ok (JArr []).
Proof. reflexivity. Qed.

(** One turn on a fresh page: the user Message is posted, and the history
    stored afterwards holds it and the reply. *)
Example sendMessage_first_turn :
  let p := snd (sendMessage zero_of_literal text_of_zero replying (Page ∅ (lit " hi ") [] [])) in
  posted p = [request_text [Build_Message (lit "user") (lit "hi")]] ∧
  localStorage p !! cute_chat_history =
    Some (history_text [Build_Message (lit "user") (lit "hi");
                        Build_Message (lit "assistant") (lit "Hello!")]) ∧
  messagesEl p = [rendered (Build_Message (lit "user") (lit "hi"));
                  rendered (Build_Message (lit "assistant") (lit "Hello!"))] ∧
  inputEl_value p = [].
Proof. vm_compute. repeat split. Qed.

End Client.

(** * Facts about the server *)

Section ServerFacts.

Import Server.
#[local] Open Scope result_scope.

Variable MODEL : pystr.
Variable create : request → upstream.

#[local] Arguments is_chat_entry : simpl never.
#[local] Arguments forwarded : simpl never.

Lemma is_chat_entry_test (d : gmap pystr pyval) :
  is_chat_entry (PDict d) =
  negb (negb (role_in_user_assistant (default PNone (d !! lit "role")))
        || negb (isinstance_str (default PNone (d !! lit "content")))).
Proof.
  unfold is_chat_entry.
  destruct (d !! lit "role") as [[]|]; simpl; try reflexivity;
    destruct (d !! lit "content") as [[]|]; simpl;
    rewrite ?orb_true_r, ?orb_false_r, ?negb_involutive; try reflexivity;
    repeat case_bool_decide; simpl; try reflexivity; tauto.
Qed.

(** The loop keeps what was collected and appends the kept entries in their
    order. *)
Lemma for_m_in_objects (messages : list pyval) :
  Forall (fun m => isinstance_dict m = true) messages →
  ∀ openai_messages,
    for_m_in messages openai_messages =
    Ok (openai_messages ++ map forwarded (List.filter is_chat_entry messages)).
Proof.
  induction 1 as [|m rest Hm _ IH]; intros acc; simpl.
  - by rewrite app_nil_r.
  - destruct m; try discriminate. simpl.
    rewrite is_chat_entry_test.
    destruct (negb _ || negb _); simpl.
    + apply IH.
    + rewrite IH, <- app_assoc. reflexivity.
Qed.

(** An entry that is no object stops the loop with an AttributeError. *)
Lemma for_m_in_not_object (m : pyval) (rest acc : list pyval) :
  isinstance_dict m = false →
  for_m_in (m :: rest) acc = Raise (AttributeError m "get").
Proof. destruct m; simpl; intros; done. Qed.

(** A kept entry with no field but [role] and [content] is passed on as it
    is. *)
Lemma forwarded_message (role content : pyval) :
  forwarded (message role content) = message role content.
Proof. reflexivity. Qed.

(** C1 (as amended): for a body whose [messages] is a list of objects, the
    one request made upstream carries the fixed system Message followed by,
    for exactly the entries whose role is [user] or [assistant] and whose
    content is a string, a Message with that role and content, in the
    original order. *)
Theorem chat_upstream_request (d : gmap pystr pyval) (messages : list pyval) :
  d !! lit "messages" = Some (PList messages) →
  Forall (fun m => isinstance_dict m = true) messages →
  snd (chat MODEL create (PDict d)) =
  [upstream_request MODEL (spec_upstream_messages messages)].
Proof.
  intros Hd Hobj. unfold chat, py_get. rewrite Hd. simpl.
  rewrite (for_m_in_objects _ Hobj). reflexivity.
Qed.

(** C3: a [messages] field that is present and is not a list is answered
    with status 400 and the error [invalid messages], and no call is made
    upstream. *)
Theorem chat_invalid_messages (d : gmap pystr pyval) (v : pyval) :
  d !! lit "messages" = Some v →
  isinstance_list v = false →
  chat MODEL create (PDict d) =
  (Response 400 (jsonify1 "error" (PStr (lit "invalid messages"))), []).
Proof.
  intros Hd Hv. unfold chat, py_get. rewrite Hd. simpl.
  destruct v; try reflexivity. discriminate.
Qed.

(** C9: a body that is an object without [messages] is treated as having
    the empty list: the handler calls upstream once, with exactly the
    system Message, and its answer is not the 400 of validation. *)
Theorem chat_messages_absent (d : gmap pystr pyval) :
  d !! lit "messages" = None →
  snd (chat MODEL create (PDict d)) = [upstream_request MODEL [system_message]] ∧
  (∃ body, fst (chat MODEL create (PDict d)) = Response 200 body ∨
           fst (chat MODEL create (PDict d)) = Response 500 body).
Proof.
  intros Hd. unfold chat, py_get. rewrite Hd. simpl. split; [reflexivity|].
  unfold try_body.
  destruct (create _) as [resp|e]; [destruct (reply_of resp)|]; eauto.
Qed.

(** C10: a body that is JSON and is no object (a list, a string, a number,
    a boolean, null) makes [data.get] raise an AttributeError that leaves
    the handler: there is no response with an [error] field, and no call
    upstream. *)
Theorem chat_body_not_object (data : pyval) :
  isinstance_dict data = false →
  chat MODEL create data = (Uncaught (AttributeError data "get"), []).
Proof. destruct data; simpl; intros; done. Qed.

(** ** More of the handler *)

(** Whatever the entries are, what the loop adds are Messages of the two
    roles with string content. *)
Lemma for_m_in_forwarded (messages : list pyval) :
  ∀ acc out, for_m_in messages acc = Ok out →
  ∃ added, out = acc ++ added ∧ Forall is_forwarded_message added.
Proof.
  induction messages as [|m rest IH]; intros acc out; cbn [for_m_in].
  - intros [= <-]. exists []. by rewrite app_nil_r.
  - destruct m; try discriminate. cbn [py_get].
    set (role := default PNone (d !! lit "role")).
    set (content := default PNone (d !! lit "content")).
    destruct (negb (role_in_user_assistant role) || negb (isinstance_str content)) eqn:Htest.
    + apply IH.
    + intros Hout. destruct (IH _ _ Hout) as (added & -> & Hadded).
      exists (message role content :: added). rewrite <- app_assoc. split; [reflexivity|].
      constructor; [|exact Hadded].
      apply orb_false_elim in Htest as [Hrole Hcontent].
      apply negb_false_iff in Hrole, Hcontent.
      destruct role as [| | | |r| |]; try discriminate.
      destruct content as [| | | |c| |]; try discriminate.
      exists r, c. split; [reflexivity|].
      cbn [role_in_user_assistant] in Hrole. apply orb_true_iff in Hrole.
      destruct Hrole as [H|H]; apply bool_decide_eq_true in H; auto.
Qed.

(** X18: every request the handler makes upstream, for any body at all, names
    the configured model and the fixed limits and carries the system
    Message followed only by Messages of role [user] or [assistant] with
    string content. *)
Theorem chat_request_well_formed (data : pyval) (req : request) :
  In req (snd (chat MODEL create data)) →
  req_model req = MODEL ∧ req_max_tokens req = 512%Z ∧
  req_temperature req = temperature_0_7 ∧
  ∃ rest, req_messages req = system_message :: rest ∧ Forall is_forwarded_message rest.
Proof.
  unfold chat. destruct (py_get data (lit "messages") (PList [])) as [v|]; [|intros []].
  destruct v; try intros [].
  destruct (for_m_in l [system_message]) as [out|] eqn:Hloop; [|intros []].
  cbn [snd]. intros [<-|[]]. repeat split.
  destruct (for_m_in_forwarded _ _ _ Hloop) as (added & -> & Hadded). by exists added.
Qed.

(** X20: an entry that is no object, after entries that are, makes the handler
    raise the AttributeError of [m.get]: no response is built and upstream
    is not called, whatever comes after the entry. *)
Theorem chat_entry_not_object (d : gmap pystr pyval) (before : list pyval) (m : pyval)
    (after : list pyval) :
  d !! lit "messages" = Some (PList (before ++ m :: after)) →
  Forall (fun x => isinstance_dict x = true) before →
  isinstance_dict m = false →
  chat MODEL create (PDict d) = (Uncaught (AttributeError m "get"), []).
Proof.
  intros Hd Hbefore Hm. unfold chat, py_get. rewrite Hd. cbn [default from_option id].
  assert (Hloop : ∀ acc, for_m_in (before ++ m :: after) acc = Raise (AttributeError m "get")).
  { clear Hd. induction Hbefore as [|x before Hx _ IH]; intros acc; cbn [app].
    - by apply for_m_in_not_object.
    - destruct x; try discriminate. cbn [for_m_in py_get].
      destruct (negb _ || negb _); apply IH. }
  by rewrite Hloop.
Qed.

Lemma lstrip_cons (c : N) (s : pystr) :
  lstrip (c :: s) = if py_isspace c then lstrip s else c :: s.
Proof. reflexivity. Qed.

(** X21: when upstream returns and its first choice has text, the handler
    answers 200 with that text under [reply], cut at both ends: the text is
    white space, the reply, white space, and the reply neither begins nor
    ends with white space. *)
Theorem chat_reply (data : pyval) (req : request) (content : pystr)
    (others : list (option pystr)) :
  snd (chat MODEL create data) = [req] →
  create req = Returns (Completion (Some content :: others)) →
  chat MODEL create data = (Response 200 (jsonify1 "reply" (PStr (strip content))), [req]) ∧
  (∃ l r, content = l ++ strip content ++ r ∧
          Forall (fun c => py_isspace c = true) l ∧
          Forall (fun c => py_isspace c = true) r) ∧
  (∀ c t, strip content = c :: t → py_isspace c = false) ∧
  (∀ t c, strip content = t ++ [c] → py_isspace c = false).
Proof.
  intros Hreq Hup. split; [|split; [|split]].
  - revert Hreq. unfold chat.
    destruct (py_get data (lit "messages") (PList [])) as [v|]; [|discriminate].
    destruct v; try discriminate.
    destruct (for_m_in l [system_message]) as [msgs|]; [|discriminate].
    cbn [snd]. intros [= <-]. unfold try_body. by rewrite Hup.
  - apply (Client.strip_both_split py_isspace lstrip eq_refl lstrip_cons).
  - apply (Client.strip_both_head py_isspace lstrip eq_refl lstrip_cons).
  - apply (Client.strip_both_last py_isspace lstrip eq_refl lstrip_cons).
Qed.

(** X22: two bodies whose lists of objects keep the same roles and contents are
    answered alike, with the same request upstream: fields besides [role]
    and [content], and entries that are dropped, change nothing. *)
Theorem chat_same_kept_entries (d1 d2 : gmap pystr pyval) (ms1 ms2 : list pyval) :
  d1 !! lit "messages" = Some (PList ms1) →
  d2 !! lit "messages" = Some (PList ms2) →
  Forall (fun m => isinstance_dict m = true) ms1 →
  Forall (fun m => isinstance_dict m = true) ms2 →
  spec_upstream_messages ms1 = spec_upstream_messages ms2 →
  chat MODEL create (PDict d1) = chat MODEL create (PDict d2).
Proof.
  intros H1 H2 Hobj1 Hobj2 Hsame. unfold chat, py_get. rewrite H1, H2.
  cbn [default from_option id].
  rewrite (for_m_in_objects _ Hobj1), (for_m_in_objects _ Hobj2).
  change ([system_message] ++ map forwarded (List.filter is_chat_entry ms1))
    with (spec_upstream_messages ms1).
  change ([system_message] ++ map forwarded (List.filter is_chat_entry ms2))
    with (spec_upstream_messages ms2).
  by rewrite Hsame.
Qed.

(** X23: when the configuration is read without error, OPENAI_API_KEY was
    set and not empty, and the model every request names is the value of
    MODEL when that is set, also to the empty string, and [gpt-4o-mini] when
    it is not. *)
Theorem configure_model (environ : gmap pystr pystr) (cfg : config)
    (data : pyval) (req : request) :
  configure environ = Ok cfg →
  In req (snd (chat (cfg_MODEL cfg) create data)) →
  (∃ c key, environ !! lit "OPENAI_API_KEY" = Some (c :: key) ∧
            cfg_OPENAI_API_KEY cfg = c :: key) ∧
  req_model req = default (lit "gpt-4o-mini") (environ !! lit "MODEL").
Proof.
  unfold configure.
  destruct (environ !! lit "OPENAI_API_KEY") as [[|c key]|]; try discriminate.
  intros [= <-] Hreq. cbn [cfg_OPENAI_API_KEY cfg_MODEL] in *. split; [eauto|].
  revert Hreq. unfold chat.
  destruct (py_get data (lit "messages") (PList [])) as [v|]; [|intros []].
  destruct v; try intros [].
  destruct (for_m_in l [system_message]) as [out|]; [|intros []].
  cbn [snd]. by intros [<-|[]].
Qed.

End ServerFacts.


(** * Facts about the handler and the completion service *)

Section WireFacts.

Import Server.
#[local] Open Scope result_scope.

Variable MODEL : pystr.

(** The handler uses [create] once when it reaches [try], and the world it
    leaves is the world that one use leaves; short of [try] it leaves the
    world as it found it. *)
Lemma chat_io_try (world : Type) (create : request → world → upstream * world)
    (data : pyval) (ms msgs : list pyval) (w : world) :
  py_get data (lit "messages") (PList []) = Ok (PList ms) →
  for_m_in ms [system_message] = Ok msgs →
  chat_io MODEL world create data w =
  (match fst (create (upstream_request MODEL msgs) w) with
   | Raises e => Response 500 (jsonify1 "error" (PStr (str e)))
   | Returns resp =>
       match reply_of resp with
       | Ok reply => Response 200 (jsonify1 "reply" (PStr reply))
       | Raise e => Response 500 (jsonify1 "error" (PStr (str e)))
       end
   end,
   snd (create (upstream_request MODEL msgs) w)).
Proof.
  intros Hget Hloop. unfold chat_io, try_body_io, upstream_request.
  rewrite Hget, Hloop.
  destruct (create _ w) as [[resp|e] w']; cbn [fst snd]; [|reflexivity].
  by destruct (reply_of resp).
Qed.

Lemma chat_io_short (world : Type) (create : request → world → upstream * world)
    (data : pyval) (w : world) :
  (∃ ms msgs, py_get data (lit "messages") (PList []) = Ok (PList ms) ∧
              for_m_in ms [system_message] = Ok msgs) ∨
  ((fst (chat_io MODEL world create data w) =
      Response 400 (jsonify1 "error" (PStr (lit "invalid messages"))) ∨
    ∃ e, fst (chat_io MODEL world create data w) = Uncaught e) ∧
   snd (chat_io MODEL world create data w) = w).
Proof.
  unfold chat_io. destruct (py_get data (lit "messages") (PList [])) as [v|e]; [|right; eauto].
  destruct v; try (right; split; [by left|reflexivity]).
  destruct (for_m_in l [system_message]) as [msgs|e] eqn:Hloop; [|right; eauto].
  left. by exists l, msgs.
Qed.

Variable service : Type.
Variable send : request → service → exchange * service.

(** What the service receives in one call of the client: the request, at
    least once and at most once more than there are retries, and once only
    when the first failure is not retryable or there is no failure. *)
Lemma client_request_received (k : nat) (req : request) (w : wire service) :
  ∃ n s, (1 <= n <= S k)%nat ∧
    snd (client_request service send k req w) = Wire s (received w ++ replicate n req) ∧
    (∀ e1 s1, send req (state w) = (Failed false e1, s1) → n = 1%nat).
Proof.
  revert w. induction k as [|k IH]; intros w; cbn [client_request]; unfold transmit;
    destruct (send req (state w)) as [[resp|retryable e] s1] eqn:Hsend.
  - exists 1%nat, s1. split; [lia|]. by split.
  - exists 1%nat, s1. split; [lia|]. by split.
  - exists 1%nat, s1. split; [lia|]. by split.
  - destruct retryable.
    + destruct (IH (Wire s1 (received w ++ [req]))) as (n & s & Hn & Hrec & _).
      exists (S n), s. split; [lia|]. split.
      * rewrite Hrec. cbn [received replicate]. by rewrite <- app_assoc.
      * discriminate.
    + exists 1%nat, s1. split; [lia|]. by split.
Qed.

(** The handler of [chat], which takes the API as a function, is the
    handler here with the world left out. *)
Lemma chat_io_chat (world : Type) (create : request → world → upstream * world)
    (data : pyval) (w : world) :
  fst (chat_io MODEL world create data w) =
  fst (chat MODEL (fun req => fst (create req w)) data).
Proof.
  unfold chat_io, chat, try_body_io, try_body.
  destruct (py_get data (lit "messages") (PList [])) as [v|e]; [|reflexivity].
  destruct v; try reflexivity.
  destruct (for_m_in l [system_message]) as [msgs|e]; [|reflexivity].
  cbn [fst]. destruct (create _ w) as [[resp|e] w']; cbn [fst]; [|reflexivity].
  by destruct (reply_of resp).
Qed.



End WireFacts.

(** ** The facts at concrete requests *)

Section ServerExamples.

Import Server.

Lemma chat_upstream_request_witness :
  body_of (PList [admin_x; hi]) !! lit "messages" = Some (PList [admin_x; hi]) ∧
  Forall (fun m => isinstance_dict m = true) [admin_x; hi] ∧
  snd (chat gpt answering (PDict (body_of (PList [admin_x; hi])))) =
  [upstream_request gpt (spec_upstream_messages [admin_x; hi])].
Proof.
  split; [reflexivity|]. split; [repeat constructor|].
  apply (chat_upstream_request gpt answering (body_of (PList [admin_x; hi])) [admin_x; hi]).
  - reflexivity.
  - repeat constructor.
Defined.

(** C1 as stated fails: an entry that is no object makes the handler raise
    before any request is built, and a kept entry with a further field is
    not passed on as it is. *)
Lemma chat_upstream_request_counterexample :
  chat gpt answering (PDict (body_of (PList [PInt 1]))) =
    (Uncaught (AttributeError (PInt 1) "get"), []) ∧
  snd (chat gpt answering (PDict (body_of (PList [hi_named])))) ≠
    [upstream_request gpt (system_message :: List.filter is_chat_entry [hi_named])].
Proof.
  split; [reflexivity|].
  intros H. apply (f_equal extra_field) in H. vm_compute in H. discriminate.
Qed.

Lemma chat_invalid_messages_witness :
  body_of (PStr (lit "not-a-list")) !! lit "messages" = Some (PStr (lit "not-a-list")) ∧
  isinstance_list (PStr (lit "not-a-list")) = false ∧
  chat gpt answering (PDict (body_of (PStr (lit "not-a-list")))) =
  (Response 400 (jsonify1 "error" (PStr (lit "invalid messages"))), []).
Proof.
  split; [reflexivity|]. split; [reflexivity|].
  apply (chat_invalid_messages gpt answering (body_of (PStr (lit "not-a-list")))
           (PStr (lit "not-a-list"))); reflexivity.
Defined.




Lemma chat_messages_absent_witness :
  (∅ : gmap pystr pyval) !! lit "messages" = None ∧
  snd (chat gpt answering (PDict ∅)) = [upstream_request gpt [system_message]].
Proof.
  split; [reflexivity|].
  apply (chat_messages_absent gpt answering ∅). reflexivity.
Defined.

Lemma chat_body_not_object_witness :
  isinstance_dict (PList [PInt 1]) = false ∧
  chat gpt answering (PList [PInt 1]) = (Uncaught (AttributeError (PList [PInt 1]) "get"), []) ∧
  chat gpt answering (PStr (lit "x")) = (Uncaught (AttributeError (PStr (lit "x")) "get"), []).
Proof.
  split; [reflexivity|]. split.
  - apply (chat_body_not_object gpt answering (PList [PInt 1])). reflexivity.
  - apply (chat_body_not_object gpt answering (PStr (lit "x"))). reflexivity.
Defined.

Lemma chat_request_well_formed_witness :
  In (upstream_request gpt [system_message; hi])
     (snd (chat gpt answering (PDict (body_of (PList [admin_x; hi]))))) ∧
  ∃ rest, req_messages (upstream_request gpt [system_message; hi]) = system_message :: rest ∧
          Forall is_forwarded_message rest.
Proof.
  split; [by left|].
  apply (chat_request_well_formed gpt answering (PDict (body_of (PList [admin_x; hi])))
           (upstream_request gpt [system_message; hi])).
  by left.
Defined.

Lemma chat_entry_not_object_witness :
  body_of (PList ([hi] ++ PInt 1 :: [hi])) !! lit "messages" =
    Some (PList ([hi] ++ PInt 1 :: [hi])) ∧
  Forall (fun x => isinstance_dict x = true) [hi] ∧
  isinstance_dict (PInt 1) = false ∧
  chat gpt answering (PDict (body_of (PList ([hi] ++ PInt 1 :: [hi])))) =
  (Uncaught (AttributeError (PInt 1) "get"), []).
Proof.
  split; [reflexivity|]. split; [by repeat constructor|]. split; [reflexivity|].
  apply (chat_entry_not_object gpt answering (body_of (PList ([hi] ++ PInt 1 :: [hi])))
           [hi] (PInt 1) [hi]); [reflexivity | by repeat constructor | reflexivity].
Defined.

Lemma chat_reply_witness :
  snd (chat gpt answering (PDict (body_of (PList [hi])))) =
    [upstream_request gpt [system_message; hi]] ∧
  chat gpt answering (PDict (body_of (PList [hi]))) =
  (Response 200 (jsonify1 "reply" (PStr (strip (lit " Hello! ")))),
   [upstream_request gpt [system_message; hi]]).
Proof.
  split; [reflexivity|].
  apply (chat_reply gpt answering (PDict (body_of (PList [hi])))
           (upstream_request gpt [system_message; hi]) (lit " Hello! ") []); reflexivity.
Defined.

Lemma chat_same_kept_entries_witness :
  spec_upstream_messages [hi_named] = spec_upstream_messages [admin_x; hi] ∧
  chat gpt answering (PDict (body_of (PList [hi_named]))) =
  chat gpt answering (PDict (body_of (PList [admin_x; hi]))).
Proof.
  split; [reflexivity|].
  apply (chat_same_kept_entries gpt answering (body_of (PList [hi_named]))
           (body_of (PList [admin_x; hi])) [hi_named] [admin_x; hi]);
    try reflexivity; by repeat constructor.
Defined.

Lemma configure_model_witness :
  configure environ_key_only = Ok (Config (lit "sk-test") gpt) ∧
  req_model (upstream_request gpt [system_message; hi]) =
  default (lit "gpt-4o-mini") (environ_key_only !! lit "MODEL").
Proof.
  split; [reflexivity|].
  apply (configure_model answering environ_key_only (Config (lit "sk-test") gpt)
           (PDict (body_of (PList [hi]))) (upstream_request gpt [system_message; hi]));
    [reflexivity | by left].
Defined.

(** The examples of the specification: a user Message goes upstream after
    the system Message and the trimmed reply comes back; an entry with an
    unknown role is dropped. *)
Example chat_hi :
  chat gpt answering (PDict (body_of (PList [hi]))) =
  (Response 200 (jsonify1 "reply" (PStr (lit "Hello!"))),
   [upstream_request gpt [system_message; hi]]).
Proof. reflexivity. Qed.

Example chat_admin_dropped :
  snd (chat gpt answering (PDict (body_of (PList [admin_x; hi])))) =
  [upstream_request gpt [system_message; hi]].
Proof. reflexivity. Qed.

(** A client that raises the failure of a refused credential: the handler
    answers 500 with its text. *)
Example chat_auth_failure :
  fst (chat gpt refusing (PDict (body_of (PList [hi])))) =
  Response 500 (jsonify1 "error" (PStr (lit "Incorrect API key provided"))).
Proof. reflexivity. Qed.

End ServerExamples.
